(** * parse_unpriv_logs: a shallow embedding of [scripts/parse_unpriv_logs.py]

    The script turns the text of build logs into summary records.  This
    development embeds its pure part: the line normalizer
    ([strip_timestamp]), the text clamp ([clamp_text]), the test block
    parser ([parse_test_blocks]), the failure context collector
    ([collect_failure_context]), the log entry builder ([parse_log], with
    [extract_env_value]) and the summary that [main] builds from the
    entries.  Finding the log files and writing the JSON document are input
    and output and are left out.

    Conventions of the embedding.
    - A Python [str] is a list of Unicode code points ([char := N]); the
      three test glyphs and the byte-order mark are single code points,
      exactly as in Python.
    - A Python [int] is a [Z]; [len] returns a [Z]; slices follow Python's
      rules for negative and out-of-range bounds.
    - A [while idx < len(messages)] loop is a recursive function on the
      suffix [messages[idx:]]; [idx += 1] is the step to the tail.
    - The dictionaries used as records ([entry], the test record, the
      result of [parse_test_blocks]) are records whose optional keys are
      [option] fields; the summary table, whose keys come from the log, is
      an insertion-ordered association list.
    - [str.lower] and [int(str)] depend on the Unicode tables and on the
      settings of the interpreter; they are taken as an interface
      ([PyBuiltins]) with an ASCII instance for evaluation. *)

From Stdlib Require Import String Ascii.
From Stdlib Require Import List ZArith NArith Lia Bool.
From Stdlib Require Import DecimalString DecimalZ.
From Stdlib Require Import Sorted Permutation.
Import ListNotations.

Set Implicit Arguments.

(** ** Python strings *)

Definition char := N.
Definition str := list char.

(** [u "abc"] is the Python literal ["abc"] (ASCII literals only). *)
Definition u (s : string) : str := map N_of_ascii (list_ascii_of_string s).
Arguments u s%_string.

Definition NL : char := 10%N.

Definition char_eqb (a b : char) : bool := N.eqb a b.

Fixpoint str_eqb (a b : str) : bool :=
  match a, b with
  | [], [] => true
  | x :: a', y :: b' => char_eqb x y && str_eqb a' b'
  | _, _ => false
  end.

Definition len {A} (l : list A) : Z := Z.of_nat (length l).

(** [str.isspace] on one code point; the regular expression class [\s] of a
    [str] pattern is the same set. *)
Definition is_space (c : char) : bool :=
  ((9 <=? c) && (c <=? 13) || (28 <=? c) && (c <=? 32) || (c =? 133)
   || (c =? 160) || (c =? 5760) || (8192 <=? c) && (c <=? 8202)
   || (c =? 8232) || (c =? 8233) || (c =? 8239) || (c =? 8287)
   || (c =? 12288))%N.

Fixpoint lstrip_by (p : char -> bool) (s : str) : str :=
  match s with
  | [] => []
  | c :: s' => if p c then lstrip_by p s' else s
  end.

Definition rstrip_by (p : char -> bool) (s : str) : str :=
  rev (lstrip_by p (rev s)).

(** [s.lstrip()], [s.rstrip()], [s.strip()] and [s.rstrip(chars)]. *)
Definition lstrip (s : str) : str := lstrip_by is_space s.
Definition rstrip (s : str) : str := rstrip_by is_space s.
Definition strip (s : str) : str := lstrip (rstrip s).
Definition rstrip_chars (chars s : str) : str :=
  rstrip_by (fun c => existsb (char_eqb c) chars) s.

(** [s.startswith(prefix)] and [s.startswith((p1, p2, ...))]. *)
Fixpoint startswith (s prefix : str) {struct prefix} : bool :=
  match prefix, s with
  | [], _ => true
  | p :: prefix', c :: s' => char_eqb c p && startswith s' prefix'
  | _ :: _, [] => false
  end.

Definition startswith_any (s : str) (prefixes : list str) : bool :=
  existsb (startswith s) prefixes.

(** [s.split(sep, 1)] when [sep] occurs in [s]: the text before and after
    the first occurrence; [None] when [sep] does not occur (Python then
    returns the one-element list [[s]]). *)
Fixpoint split_once (sep s : str) : option (str * str) :=
  if startswith s sep then Some ([], skipn (length sep) s)
  else match s with
       | [] => None
       | c :: s' =>
           match split_once sep s' with
           | Some (a, b) => Some (c :: a, b)
           | None => None
           end
       end.

(** [sub in s]. *)
Definition contains (s sub : str) : bool :=
  match split_once sub s with Some _ => true | None => false end.

(** [sep.join(parts)]. *)
Fixpoint join (sep : str) (parts : list str) : str :=
  match parts with
  | [] => []
  | [p] => p
  | p :: ps => p ++ sep ++ join sep ps
  end.

(** Python slices [l[start:stop]]: a negative bound counts from the end,
    and every bound is clamped to [0 .. len l]. *)
Definition slice_bound (n i : Z) : nat :=
  Z.to_nat (Z.min n (Z.max 0 (if (i <? 0)%Z then (i + n)%Z else i))).

Definition slice {A} (l : list A) (start stop : option Z) : list A :=
  let a := match start with Some i => slice_bound (len l) i | None => 0 end in
  let b := match stop with Some j => slice_bound (len l) j | None => length l end in
  firstn (b - a) (skipn a l).

(** [str(n)] for an [int]. *)
Definition repr_int (n : Z) : str := u (NilZero.string_of_int (Z.to_int n)).

(** ** The constants of the script *)

Definition CHECK : char := 10003%N.   (* U+2713, passed *)
Definition CROSS : char := 10007%N.   (* U+2717, failed *)
Definition CIRCLED_MINUS : char := 8861%N.   (* U+229D, skipped *)
Definition BOM : char := 65279%N.   (* U+FEFF *)

Definition TEST_MARKERS : list char := [CHECK; CROSS; CIRCLED_MINUS].

Definition SECTION_PREFIXES : list str :=
  [ u "Test Results for"; u "Detailed Results:"; u "##["; u "[command]";
    u "Post job cleanup"; u "shell:"; u "env:"; u "Running test:";
    u "Running builtin test:"; u "Using container runtime";
    u "Found container" ].

Definition FAILURE_KEYWORDS : list str :=
  [ u "error"; u "failed"; u "exception"; u "traceback"; u "abort";
    u "denied" ].

Definition MAX_OUTPUT_CHARS : Z := 4000.

(** ** [clamp_text] *)

Definition truncation_marker (remainder : Z) : str :=
  u "... (truncated, " ++ repr_int remainder ++ u " more characters)".

Definition clamp_text (text : str) (limit : Z) : str :=
  if (len text <=? limit)%Z then text
  else
    let truncated := rstrip (slice text None (Some limit)) in
    let remainder := (len text - limit)%Z in
    truncated ++ [NL] ++ truncation_marker remainder.

(** The call [clamp_text(text)], with the default limit. *)
Definition clamp (text : str) : str := clamp_text text MAX_OUTPUT_CHARS.

(** ** [strip_timestamp] *)

(** The class [\d] of a [str] pattern: the Unicode decimal digits (category
    Nd, Unicode 14).  Every block but one is a run of ten code points; the
    mathematical digits U+1D7CE..U+1D7FF are a run of fifty. *)
Definition DECIMAL_BLOCKS : list N :=
  [ 48; 1632; 1776; 1984; 2406; 2534; 2662; 2790; 2918; 3046; 3174; 3302;
    3430; 3558; 3664; 3792; 3872; 4160; 4240; 6112; 6160; 6470; 6608; 6784;
    6800; 6992; 7088; 7232; 7248; 42528; 43216; 43264; 43472; 43504; 43600;
    44016; 65296; 66720; 68912; 69734; 69872; 69942; 70096; 70384; 70736;
    70864; 71248; 71360; 71472; 71904; 72016; 72784; 73040; 73120; 92768;
    92864; 93008; 123200; 123632; 125264; 130032 ]%N.

Definition is_decimal (c : char) : bool :=
  (existsb (fun lo => (lo <=? c) && (c <? lo + 10)) DECIMAL_BLOCKS
   || (120782 <=? c) && (c <? 120832))%N.

Definition ch (a : ascii) : char := N_of_ascii a.
Arguments ch a%_char.

(** The fragment of Python's regular expressions that [TIMESTAMP_RE] uses.
    Repetitions are greedy and range over one character class. *)
Inductive cclass :=
| Lit (c : char)
| Digit
| Whitespace.

Definition cclass_ok (a : cclass) (c : char) : bool :=
  match a with
  | Lit x => char_eqb c x
  | Digit => is_decimal c
  | Whitespace => is_space c
  end.

Inductive regex :=
| One (a : cclass)
| Rep (n : nat) (a : cclass)
| Star (a : cclass)
| Plus (a : cclass)
| Opt (r : regex)
| Seq (r1 r2 : regex).

Declare Scope regex_scope.
Delimit Scope regex_scope with re.
Notation "r1 ;; r2" := (Seq r1 r2)
  (at level 61, right associativity) : regex_scope.

(** A backtracking matcher in continuation-passing style: [k] is what has
    to match after [r]; alternatives are tried in Python's order (greedy
    repetitions try the longest run first, an optional group is tried
    before it is skipped). *)
Section Matcher.
Variable R : Type.

Fixpoint rep_match (n : nat) (a : cclass) (s : str)
    (k : str -> option R) : option R :=
  match n with
  | O => k s
  | S n' =>
      match s with
      | c :: s' => if cclass_ok a c then rep_match n' a s' k else None
      | [] => None
      end
  end.

Fixpoint star_match (a : cclass) (s : str) (k : str -> option R)
    : option R :=
  match s with
  | c :: s' =>
      if cclass_ok a c then
        match star_match a s' k with
        | Some r => Some r
        | None => k s
        end
      else k s
  | [] => k s
  end.

Fixpoint re_match (r : regex) (s : str) (k : str -> option R)
    : option R :=
  match r with
  | One a => rep_match 1 a s k
  | Rep n a => rep_match n a s k
  | Star a => star_match a s k
  | Plus a => rep_match 1 a s (fun s' => star_match a s' k)
  | Opt r' =>
      match re_match r' s k with
      | Some x => Some x
      | None => k s
      end
  | Seq r1 r2 => re_match r1 s (fun s' => re_match r2 s' k)
  end.
End Matcher.

(** [pattern.sub("", s, count=1)] for a pattern that begins with [^]: the
    only possible match starts at position 0; it is removed when there is
    one, and [s] is returned unchanged otherwise. *)
Definition re_sub_start (r : regex) (s : str) : str :=
  match re_match r s (fun rest => Some rest) with
  | Some rest => rest
  | None => s
  end.

(** [^\d{4}-\d{2}-\d{2}T\d{2}:\d{2}:\d{2}(?:\.\d+)?Z\s*] (the anchor is
    part of [re_sub_start]). *)
Definition TIMESTAMP_RE : regex :=
  (Rep 4 Digit ;; One (Lit (ch "-")) ;; Rep 2 Digit ;; One (Lit (ch "-")) ;;
   Rep 2 Digit ;; One (Lit (ch "T")) ;; Rep 2 Digit ;; One (Lit (ch ":")) ;;
   Rep 2 Digit ;; One (Lit (ch ":")) ;; Rep 2 Digit ;;
   Opt (One (Lit (ch ".")) ;; Plus Digit) ;; One (Lit (ch "Z")) ;;
   Star Whitespace)%re.

(** [s.replace(c, "")] for a one-character [c]. *)
Definition remove_char (c : char) (s : str) : str :=
  filter (fun x => negb (char_eqb x c)) s.

Definition strip_timestamp (line : str) : str :=
  let line := remove_char BOM line in
  rstrip (re_sub_start TIMESTAMP_RE line).

(** ** The builtins taken from the interpreter *)

Class PyBuiltins := {
  py_lower : str -> str;          (* str.lower *)
  py_int : str -> option Z        (* int(s); None when it raises ValueError *)
}.

(** ** The summary table *)

Inductive value :=
| VInt (n : Z)
| VStr (s : str).

Definition dict := list (str * value).

Fixpoint dict_get (key : str) (d : dict) : option value :=
  match d with
  | [] => None
  | (k, v) :: d' => if str_eqb k key then Some v else dict_get key d'
  end.

(** [d[key] = v]: an existing key keeps its place, a new key goes last. *)
Fixpoint dict_set (key : str) (v : value) (d : dict) : dict :=
  match d with
  | [] => [(key, v)]
  | (k, w) :: d' =>
      if str_eqb k key then (k, v) :: d' else (k, w) :: dict_set key v d'
  end.

(** [f"{v}"] for a value of the summary table. *)
Definition format_value (v : value) : str :=
  match v with
  | VInt n => repr_int n
  | VStr s => s
  end.

(** ** Records *)

Record TestRecord := {
  name : str;
  status : str;
  note : option str;
  output : option str
}.

Record TestInfo := {
  test_target : option str;
  test_summary : option dict;
  tests : option (list TestRecord);
  failures : option (list TestRecord)
}.

Record FailureContext := {
  context_reason : str;
  context_output : str
}.

Record LogEntry := {
  entry_name : str;
  entry_path : str;
  recipe : option str;
  version : option str;
  entry_status : str;
  entry_tests : TestInfo;
  reason : str;
  failure_output : option str
}.

Definition is_empty {A} (l : list A) : bool :=
  match l with [] => true | _ :: _ => false end.

(** A key is set only when its value is truthy (non-empty). *)
Definition if_nonempty {A} (l : list A) : option (list A) :=
  if is_empty l then None else Some l.

(** ** [parse_test_blocks] *)

Section Parser.
Context {builtins : PyBuiltins}.

Definition TEST_RESULTS_FOR : str := u "Test Results for".
Definition DETAILED_RESULTS : str := u "Detailed Results:".

Definition PASSED : str := u "passed".
Definition FAILED : str := u "failed".
Definition SKIPPED : str := u "skipped".
Definition UNKNOWN : str := u "unknown".

(** [raw_msg.lstrip().startswith("Test Results for")] *)
Definition is_header (raw_msg : str) : bool :=
  startswith (lstrip raw_msg) TEST_RESULTS_FOR.

(** The first loop: [last_idx] after the messages from position [idx]
    on have been visited. *)
Fixpoint find_last_idx (messages : list str) (idx : nat)
    (last_idx : option nat) : option nat :=
  match messages with
  | [] => last_idx
  | raw_msg :: rest =>
      find_last_idx rest (S idx)
        (if is_header raw_msg then Some idx else last_idx)
  end.

(** [try: summary[key] = int(value) except ValueError: summary[key] = value] *)
Definition summary_value (v : str) : value :=
  match py_int v with
  | Some n => VInt n
  | None => VStr v
  end.

(** The summary loop on [messages[idx:]]: the table and [messages[idx:]]
    for the [idx] at which the loop stops. *)
Fixpoint summary_loop (msgs : list str) (summary : dict)
    : dict * list str :=
  match msgs with
  | [] => (summary, [])
  | raw_msg :: rest =>
      let msg := lstrip raw_msg in
      if is_empty msg then summary_loop rest summary
      else if startswith msg DETAILED_RESULTS then (summary, rest)
      else
        match split_once (u ":") msg with
        | Some (key, v) =>
            summary_loop rest
              (dict_set (py_lower (strip key)) (summary_value (strip v))
                 summary)
        | None => (summary, msgs)
        end
  end.

(** [first in TEST_MARKERS] *)
Definition is_marker (first : char) : bool :=
  existsb (char_eqb first) TEST_MARKERS.

(** [status_map.get(first, "unknown")] *)
Definition status_of (first : char) : str :=
  if char_eqb first CHECK then PASSED
  else if char_eqb first CROSS then FAILED
  else if char_eqb first CIRCLED_MINUS then SKIPPED
  else UNKNOWN.

(** The record of a test line [first + tail], before any output is
    attached. *)
Definition make_record (first : char) (tail : str) : TestRecord :=
  let rest := strip tail in
  let '(name, note) :=
    match split_once (u ": ") rest with
    | Some (name_part, status_part) =>
        (strip name_part, Some (strip status_part))
    | None => (rest, None)
    end in
  let status := status_of first in
  {| name := name;
     status := status;
     note :=
       match note with
       | Some n =>
           if negb (is_empty n) && negb (str_eqb (py_lower n) status)
           then Some n else None
       | None => None
       end;
     output := None |}.

(** [nxt.startswith(SECTION_PREFIXES) or (nxt and nxt[0] in TEST_MARKERS)] *)
Definition ends_output (nxt : str) : bool :=
  startswith_any nxt SECTION_PREFIXES
  || match nxt with
     | first :: _ => is_marker first
     | [] => false
     end.

(** [if output_lines: record["output"] = clamp_text("\n".join(output_lines).strip())] *)
Definition with_output (record : TestRecord) (output_lines : list str)
    : TestRecord :=
  if is_empty output_lines then record
  else {| name := name record;
          status := status record;
          note := note record;
          output := Some (clamp (strip (join [NL] output_lines))) |}.

(** The lookahead loop of a failed test on [messages[lookahead:]]: the
    output lines and [messages[lookahead:]] for the final [lookahead]. *)
Fixpoint collect_output (ahead : list str) (output_lines : list str)
    : list str * list str :=
  match ahead with
  | [] => (output_lines, [])
  | nxt_raw :: ahead' =>
      let nxt := lstrip nxt_raw in
      if is_empty nxt then collect_output ahead' (output_lines ++ [[]])
      else if ends_output nxt then (output_lines, ahead)
      else collect_output ahead' (output_lines ++ [nxt])
  end.

(** The test loop on [messages[idx:]], with the lists [tests] and
    [failures] as state.  The lookahead loop is written inside it, as in
    the source; [tests_loop_cons] below shows that it is
    [collect_output]. *)
Fixpoint tests_loop (msgs : list str) (tests failures : list TestRecord)
    : list TestRecord * list TestRecord :=
  match msgs with
  | [] => (tests, failures)
  | raw_msg :: rest =>
      let msg := lstrip raw_msg in
      match msg with
      | [] => tests_loop rest tests failures
      | first :: tail =>
          if startswith_any msg SECTION_PREFIXES then (tests, failures)
          else if is_marker first then
            let record := make_record first tail in
            if str_eqb (status record) FAILED then
              (fix lookahead (ahead : list str) (output_lines : list str)
                   {struct ahead} :=
                 match ahead with
                 | [] =>
                     let record := with_output record output_lines in
                     (tests ++ [record], failures ++ [record])
                 | nxt_raw :: ahead' =>
                     let nxt := lstrip nxt_raw in
                     if is_empty nxt
                     then lookahead ahead' (output_lines ++ [[]])
                     else if ends_output nxt then
                       let record := with_output record output_lines in
                       tests_loop ahead (tests ++ [record])
                         (failures ++ [record])
                     else lookahead ahead' (output_lines ++ [nxt])
                 end) rest []
            else tests_loop rest (tests ++ [record]) failures
          else tests_loop rest tests failures
      end
  end.

Definition no_tests : TestInfo :=
  {| test_target := None; test_summary := None;
     tests := None; failures := None |}.

Definition parse_test_blocks (messages : list str) : TestInfo :=
  match find_last_idx messages 0 None with
  | None => no_tests
  | Some last_idx =>
      let container_line := lstrip (nth last_idx messages []) in
      let container :=
        rstrip_chars (u ":")
          (strip (slice container_line (Some (len TEST_RESULTS_FOR)) None))
      in
      let '(summary, after_summary) :=
        summary_loop (skipn (S last_idx) messages) [] in
      let '(tests, failures) := tests_loop after_summary [] [] in
      {| test_target := if_nonempty container;
         test_summary := if_nonempty summary;
         tests := if_nonempty tests;
         failures := if_nonempty failures |}
  end.

(** ** [collect_failure_context] *)

Definition NOISE_PREFIXES : list str :=
  [ u "[command]"; u "Post job cleanup"; u "Temporary overriding";
    u "Adding repository directory"; u "Cleaning up"; u "shell:";
    u "env:" ].

(** [msg and not msg.startswith((...))] *)
Definition keep_context (msg : str) : bool :=
  negb (is_empty msg) && negb (startswith_any msg NOISE_PREFIXES).

(** [any(keyword in line.lower() for keyword in FAILURE_KEYWORDS)] *)
Definition has_failure_keyword (line : str) : bool :=
  existsb (fun keyword => contains (py_lower line) keyword)
    FAILURE_KEYWORDS.

Definition collect_failure_context (messages : list str)
    (error_indices : list Z) : option FailureContext :=
  match error_indices with
  | [] => None
  | idx :: _ =>
      let start := Z.max 0 (idx - 30) in
      let context :=
        filter keep_context (slice messages (Some start) (Some idx)) in
      if is_empty context then None
      else
        let trimmed_context := slice context (Some (-20)%Z) None in
        let reason :=
          match find has_failure_keyword (rev trimmed_context) with
          | Some line => line
          | None => last trimmed_context []
          end in
        let output := clamp (strip (join [NL] trimmed_context)) in
        Some {| context_reason := reason; context_output := output |}
  end.

(** ** [parse_log] *)

Definition ERROR_MARKER : str := u "##[error]".
Definition SUCCEEDED : str := u "succeeded".

(** [msg.split(":", 1)[1].strip()], used on messages that start with a
    prefix ending in a colon, so that the split has a second part
    ([after_colon_defined]). *)
Definition after_colon (msg : str) : str :=
  match split_once (u ":") msg with
  | Some (_, v) => strip v
  | None => []
  end.

Definition extract_env_value (messages : list str) (prefix : str)
    : option str :=
  let target := prefix ++ u ":" in
  match find (fun msg => startswith msg target) messages with
  | Some msg => Some (after_colon msg)
  | None => None
  end.

(** [if x: entry[key] = x] for an optional string. *)
Definition truthy (x : option str) : option str :=
  match x with
  | Some s => if_nonempty s
  | None => None
  end.

(** [[idx for idx, msg in enumerate(messages) if msg.startswith("##[error]")]],
    for the messages from position [idx] on. *)
Fixpoint error_positions (messages : list str) (idx : Z) : list Z :=
  match messages with
  | [] => []
  | msg :: rest =>
      if startswith msg ERROR_MARKER
      then idx :: error_positions rest (idx + 1)
      else error_positions rest (idx + 1)
  end.

(** The reason of a build that succeeded. *)
Definition success_reason (test_info : TestInfo) : str :=
  let summary :=
    match test_summary test_info with Some s => s | None => [] end in
  if negb (is_empty summary)
     && match dict_get FAILED summary with
        | Some (VInt 0) => true
        | _ => false
        end
  then
    let total := dict_get (u "total") summary in
    let passed := dict_get PASSED summary in
    match total, passed with
    | Some t, Some p =>
        u "All tests passed (" ++ format_value p ++ u " of "
          ++ format_value t ++ u ")."
    | None, Some p => u "All tests passed (" ++ format_value p ++ u ")."
    | _, None => u "All tests passed."
    end
  else if match tests test_info with Some _ => true | None => false end
  then u "All tests completed without failures."
  else u "Completed without reported failures.".

(** The reason and the failure output of a build that failed. *)
Definition failure_reason (messages : list str) (error_indices : list Z)
    (test_info : TestInfo) : str * option str :=
  let failures :=
    match failures test_info with Some l => l | None => [] end in
  if negb (is_empty failures) then
    let outputs :=
      flat_map
        (fun failure =>
           match output failure with
           | Some o => if is_empty o then [] else [o]
           | None => []
           end) failures in
    (u "Tests failed: " ++ join (u ", ") (map name failures),
     if is_empty outputs then None
     else Some (clamp (join [NL; NL] outputs)))
  else
    match collect_failure_context messages error_indices with
    | Some context => (context_reason context, Some (context_output context))
    | None => (u "Build failed for an unknown reason.", None)
    end.

(** The body of [parse_log] from the normalized messages on; [stem] and
    [path] are [path.stem] and [str(path)]. *)
Definition parse_messages (stem path : str) (messages : list str)
    : LogEntry :=
  let recipe := extract_env_value messages (u "RECIPE") in
  let version :=
    match find (fun msg => startswith msg (u "Detected version:")) messages
    with
    | Some msg => Some (after_colon msg)
    | None => None
    end in
  let version :=
    match truthy version with
    | Some v => Some v
    | None => extract_env_value messages (u "VERSION")
    end in
  let error_indices := error_positions messages 0 in
  let status := if is_empty error_indices then SUCCEEDED else FAILED in
  let test_info := parse_test_blocks messages in
  let '(reason, failure_output) :=
    if str_eqb status SUCCEEDED then (success_reason test_info, None)
    else failure_reason messages error_indices test_info in
  {| entry_name := stem;
     entry_path := path;
     recipe := truthy recipe;
     version := truthy version;
     entry_status := status;
     entry_tests := test_info;
     reason := reason;
     failure_output := failure_output |}.

(** [parse_log] on the lines of the file ([text.splitlines()]). *)
Definition parse_log (stem path : str) (lines : list str) : LogEntry :=
  parse_messages stem path (map strip_timestamp lines).

End Parser.

(** ** An instance of the builtins on ASCII text

    On strings of ASCII characters [ascii_lower] is [str.lower], and
    [ascii_int] is [int] for decimal literals with an optional sign and
    single underscores between digits. *)

Definition ascii_lower (s : str) : str :=
  map (fun c => if ((65 <=? c) && (c <=? 90))%N then (c + 32)%N else c) s.

Fixpoint int_digits (s : str) (acc : Z) (after_digit : bool) : option Z :=
  match s with
  | [] => if after_digit then Some acc else None
  | c :: s' =>
      if char_eqb c (ch "_") then
        if after_digit then
          match s' with
          | [] => None
          | _ :: _ => int_digits s' acc false
          end
        else None
      else if ((48 <=? c) && (c <=? 57))%N
      then int_digits s' (10 * acc + Z.of_N (c - 48)) true
      else None
  end.

Definition ascii_int (s : str) : option Z :=
  match strip s with
  | [] => None
  | c :: s' =>
      if char_eqb c (ch "-") then option_map Z.opp (int_digits s' 0 false)
      else if char_eqb c (ch "+") then int_digits s' 0 false
      else int_digits (c :: s') 0 false
  end.

Definition ascii_builtins : PyBuiltins :=
  {| py_lower := ascii_lower; py_int := ascii_int |}.

(** * Vocabulary of the specification *)

(** ** Timestamps *)

(** The strings a regular expression matches. *)
Inductive matches : regex -> str -> Prop :=
| matches_one a c :
    cclass_ok a c = true -> matches (One a) [c]
| matches_rep n a ds :
    length ds = n -> forallb (cclass_ok a) ds = true ->
    matches (Rep n a) ds
| matches_star a ds :
    forallb (cclass_ok a) ds = true -> matches (Star a) ds
| matches_plus a c ds :
    cclass_ok a c = true -> forallb (cclass_ok a) ds = true ->
    matches (Plus a) (c :: ds)
| matches_opt r m : matches r m -> matches (Opt r) m
| matches_skip r : matches (Opt r) []
| matches_seq r1 r2 m1 m2 :
    matches r1 m1 -> matches r2 m2 -> matches (Seq r1 r2) (m1 ++ m2).

(** [n] decimal digits. *)
Definition digits (n : nat) (s : str) : Prop :=
  length s = n /\ forallb is_decimal s = true.

(** The optional fraction of the seconds: a dot and one digit or more. *)
Inductive fraction : str -> Prop :=
| fraction_none : fraction []
| fraction_some d ds :
    is_decimal d = true -> forallb is_decimal ds = true ->
    fraction (ch "." :: d :: ds).

(** A timestamp token [YYYY-MM-DDThh:mm:ss[.fraction]Z]. *)
Inductive timestamp_token : str -> Prop :=
| timestamp_token_intro YYYY MM DD hh mm ss frac :
    digits 4 YYYY -> digits 2 MM -> digits 2 DD ->
    digits 2 hh -> digits 2 mm -> digits 2 ss -> fraction frac ->
    timestamp_token
      (YYYY ++ u "-" ++ MM ++ u "-" ++ DD ++ u "T" ++ hh ++ u ":" ++ mm
         ++ u ":" ++ ss ++ frac ++ u "Z").

(** The first character of [s], if any, is not whitespace. *)
Definition no_leading_space (s : str) : Prop :=
  match s with
  | c :: _ => is_space c = false
  | [] => True
  end.

(** ** The test loop as a relation *)

Section Vocabulary.
Context {builtins : PyBuiltins}.

(** [tests_run msgs tests failures result]: the test loop, started on
    the messages [msgs] with the lists [tests] and [failures], ends with
    [result]; one rule for each path through the body of the loop. *)
Inductive tests_run :
  list str -> list TestRecord -> list TestRecord ->
  list TestRecord * list TestRecord -> Prop :=
| run_end tests failures :
    tests_run [] tests failures (tests, failures)
| run_blank raw_msg rest tests failures result :
    lstrip raw_msg = [] ->
    tests_run rest tests failures result ->
    tests_run (raw_msg :: rest) tests failures result
| run_section raw_msg rest first tail tests failures :
    lstrip raw_msg = first :: tail ->
    startswith_any (first :: tail) SECTION_PREFIXES = true ->
    tests_run (raw_msg :: rest) tests failures (tests, failures)
| run_failed raw_msg rest first tail output_lines remaining
    tests failures result :
    lstrip raw_msg = first :: tail ->
    startswith_any (first :: tail) SECTION_PREFIXES = false ->
    is_marker first = true ->
    status (make_record first tail) = FAILED ->
    collect_output rest [] = (output_lines, remaining) ->
    tests_run remaining
      (tests ++ [with_output (make_record first tail) output_lines])
      (failures ++ [with_output (make_record first tail) output_lines])
      result ->
    tests_run (raw_msg :: rest) tests failures result
| run_test raw_msg rest first tail tests failures result :
    lstrip raw_msg = first :: tail ->
    startswith_any (first :: tail) SECTION_PREFIXES = false ->
    is_marker first = true ->
    status (make_record first tail) <> FAILED ->
    tests_run rest (tests ++ [make_record first tail]) failures result ->
    tests_run (raw_msg :: rest) tests failures result
| run_other raw_msg rest first tail tests failures result :
    lstrip raw_msg = first :: tail ->
    startswith_any (first :: tail) SECTION_PREFIXES = false ->
    is_marker first = false ->
    tests_run rest tests failures result ->
    tests_run (raw_msg :: rest) tests failures result.

(** ** Kinds of lines *)

(** A line of whitespace only. *)
Definition blank_line (raw_msg : str) : bool := is_empty (lstrip raw_msg).



(** A [key: value] line of the summary table. *)
Definition pair_line (raw_msg : str) : bool :=
  negb (blank_line raw_msg)
  && negb (startswith (lstrip raw_msg) DETAILED_RESULTS)
  && contains (lstrip raw_msg) (u ":").

(** The line that ends the summary table and is consumed. *)
Definition detailed_line (raw_msg : str) : bool :=
  startswith (lstrip raw_msg) DETAILED_RESULTS.

(** A line without a colon, which ends the summary table and is not
    consumed. *)
Definition colonless_line (raw_msg : str) : bool :=
  negb (blank_line raw_msg) && negb (contains (lstrip raw_msg) (u ":")).

(** The entry of the summary table that a [key: value] line stands for:
    the lower-cased key, and the value as an integer when it parses as
    one, as the trimmed text otherwise. *)
Definition pair_of (raw_msg : str) : option (str * value) :=
  match split_once (u ":") (lstrip raw_msg) with
  | Some (key, v) =>
      Some (py_lower (strip key),
            match py_int (strip v) with
            | Some n => VInt n
            | None => VStr (strip v)
            end)
  | None => None
  end.

Definition store (summary : dict) (raw_msg : str) : dict :=
  match pair_of raw_msg with
  | Some (key, v) => dict_set key v summary
  | None => summary
  end.

Definition is_failed (record : TestRecord) : bool :=
  str_eqb (status record) FAILED.

(** The list under an optional key, empty when the key is absent. *)
Definition records (x : option (list TestRecord)) : list TestRecord :=
  match x with
  | Some l => l
  | None => []
  end.

(** ** The failure context in the words of the specification *)

(** The position of the first message that starts with the error
    marker. *)
Fixpoint first_error (messages : list str) : option nat :=
  match messages with
  | [] => None
  | msg :: rest =>
      if startswith msg ERROR_MARKER then Some 0
      else option_map S (first_error rest)
  end.

(** The last [n] elements of a list (all of it when it is shorter). *)
Definition last_n {A} (n : nat) (l : list A) : list A :=
  skipn (length l - n) l.

Definition noise_line (msg : str) : bool := startswith_any msg NOISE_PREFIXES.

Definition whitespace_only (msg : str) : bool := forallb is_space msg.

(** A message as the line normalizer leaves it: without trailing
    whitespace. *)
Definition normalized (msg : str) : Prop := rstrip msg = msg.

(** The context before the first error: the up to 30 messages before it,
    without the blank lines and the noise lines; of these the last 20.
    [blank] says what a blank line is. *)
Definition spec_failure_context (blank : str -> bool) (messages : list str)
    : option FailureContext :=
  match first_error messages with
  | None => None
  | Some idx =>
      let window := last_n 30 (firstn idx messages) in
      let kept :=
        filter (fun msg => negb (blank msg) && negb (noise_line msg)) window in
      if is_empty kept then None
      else
        let lines := last_n 20 kept in
        Some {| context_reason :=
                  match find has_failure_keyword (rev lines) with
                  | Some line => line
                  | None => last lines []
                  end;
                context_output := clamp (strip (join [NL] lines)) |}
  end.

End Vocabulary.

(** * [main]: the summary of a run

    [main] parses every log file, sorts the entries by name and counts
    them by status.  The file system and the JSON writer are outside the
    embedding: a log file is given by its [path.stem], its [str(path)] and
    the lines of its text, in the order of [iter_log_files]. *)

(** [a < b] on two [str]: the order of the code points, a proper prefix
    first. *)
Fixpoint str_ltb (a b : str) : bool :=
  match a, b with
  | _, [] => false
  | [], _ :: _ => true
  | x :: a', y :: b' => ((x <? y) || (x =? y) && str_ltb a' b')%N
  end.

(** [a <= b], that is [not (b < a)]. *)
Definition str_leb (a b : str) : bool := negb (str_ltb b a).

(** [list.sort(key=...)] is a stable sort that compares keys with [<].
    Its result is the one of any stable sort; here: insertion from the
    right, each item placed before the first item whose key is not
    smaller. *)
Fixpoint insert_entry (item : LogEntry) (sorted : list LogEntry)
    : list LogEntry :=
  match sorted with
  | [] => [item]
  | x :: rest =>
      if str_ltb (entry_name x) (entry_name item)
      then x :: insert_entry item rest
      else item :: sorted
  end.

Definition sort_entries (entries : list LogEntry) : list LogEntry :=
  fold_right insert_entry [] entries.

(** [sum(1 for item in entries if item.get("status") == wanted)] *)
Definition count_status (wanted : str) (entries : list LogEntry) : Z :=
  fold_left
    (fun total item =>
       if str_eqb (entry_status item) wanted then (total + 1)%Z else total)
    entries 0%Z.

Record LogFile := {
  file_stem : str;
  file_path : str;
  file_lines : list str
}.

Record Summary := {
  log_directory : str;
  total_builds : Z;
  summary_succeeded : Z;
  summary_failed : Z;
  entries : list LogEntry
}.

Definition LOG_ROOT : str := u "local/unpriv_logs".

(** The dictionary that [main] serializes. *)
Definition main_summary {builtins : PyBuiltins} (log_files : list LogFile)
    : Summary :=
  let entries :=
    map (fun f => parse_log (file_stem f) (file_path f) (file_lines f))
      log_files in
  let entries := sort_entries entries in
  {| log_directory := LOG_ROOT;
     total_builds := len entries;
     summary_succeeded := count_status SUCCEEDED entries;
     summary_failed := count_status FAILED entries;
     entries := entries |}.

(** The name of [a] is not greater than the name of [b]. *)
Definition name_le (a b : LogEntry) : Prop :=
  str_leb (entry_name a) (entry_name b) = true.

(** The entries of a log list named [n], in their order. *)
Definition named (n : str) (entries : list LogEntry) : list LogEntry :=
  filter (fun item => str_eqb (entry_name item) n) entries.

(** The outputs of a list of records that are present and not empty, in
    the order of the records. *)
Definition outputs_of (failed_records : list TestRecord) : list str :=
  filter (fun o => negb (is_empty o))
    (flat_map
       (fun record =>
          match output record with
          | Some o => [o]
          | None => []
          end) failed_records).

(** * Relations in the words of the specification

    These say what a step does without the functions of the script. *)

(** [s] does not end with whitespace. *)
Definition no_trailing_space (s : str) : Prop :=
  forall r c, s = r ++ [c] -> is_space c = false.

(** [without_char x line clean]: [clean] is [line] with every [x] removed
    and every other character kept, in order. *)
Inductive without_char (x : char) : str -> str -> Prop :=
| without_nil : without_char x [] []
| without_drop line clean :
    without_char x line clean -> without_char x (x :: line) clean
| without_keep c line clean :
    c <> x -> without_char x line clean ->
    without_char x (c :: line) (c :: clean).

Definition has_prefix (prefix s : str) : Prop := exists rest, s = prefix ++ rest.

Definition occurs_in (sub s : str) : Prop := exists a b, s = a ++ sub ++ b.

(** The parts with [sep] between them. *)
Definition separated (sep : str) (parts : list str) : str :=
  match parts with
  | [] => []
  | p :: ps => p ++ concat (map (fun q => sep ++ q) ps)
  end.

(** [trimmed text result]: [result] is [text] without the whitespace at
    its two ends. *)
Definition trimmed (text result : str) : Prop :=
  exists before after,
    text = before ++ result ++ after /\
    forallb is_space before = true /\ forallb is_space after = true /\
    no_leading_space result /\ no_trailing_space result.

(** [clamped limit text result]: [result] is [text] when it has at most
    [limit] characters; otherwise it is the first [limit] characters
    without their trailing whitespace, a newline, and the marker with the
    number of characters beyond the limit. *)
Inductive clamped (limit : nat) (text : str) : str -> Prop :=
| clamped_short : length text <= limit -> clamped limit text text
| clamped_long kept ws :
    limit < length text ->
    firstn limit text = kept ++ ws ->
    forallb is_space ws = true ->
    no_trailing_space kept ->
    clamped limit text
      (kept ++ [10%N] ++ u "... (truncated, "
         ++ repr_int (Z.of_nat (length text - limit))
         ++ u " more characters)").

(** A line that starts with one of the noise prefixes. *)
Definition is_noise (msg : str) : Prop :=
  exists p,
    In p [ u "[command]"; u "Post job cleanup"; u "Temporary overriding";
           u "Adding repository directory"; u "Cleaning up"; u "shell:";
           u "env:" ] /\
    has_prefix p msg.

(** [kept_lines blank window kept]: [kept] is [window] without its blank
    lines and its noise lines, in order. *)
Inductive kept_lines (blank : str -> Prop) : list str -> list str -> Prop :=
| kept_nil : kept_lines blank [] []
| kept_drop msg window kept :
    blank msg \/ is_noise msg ->
    kept_lines blank window kept -> kept_lines blank (msg :: window) kept
| kept_keep msg window kept :
    ~ blank msg -> ~ is_noise msg ->
    kept_lines blank window kept ->
    kept_lines blank (msg :: window) (msg :: kept).

Section ReasonVocabulary.
Context {builtins : PyBuiltins}.

(** The lower-cased line contains one of the failure keywords. *)
Definition names_failure (line : str) : Prop :=
  exists keyword,
    In keyword [ u "error"; u "failed"; u "exception"; u "traceback";
                 u "abort"; u "denied" ] /\
    occurs_in keyword (py_lower line).

(** [chosen_reason lines reason]: scanning [lines] from the end, [reason]
    is the first line that names a failure, or the last line when no line
    does. *)
Definition chosen_reason (lines : list str) (reason : str) : Prop :=
  (exists earlier later,
     lines = earlier ++ reason :: later /\ names_failure reason /\
     forall l, In l later -> ~ names_failure l) \/
  ((forall l, In l lines -> ~ names_failure l) /\
   exists earlier, lines = earlier ++ [reason]).

End ReasonVocabulary.

(** * Logs used by the examples *)

(** A log used by the examples: an earlier report for [old], then the
    report for [demo] with one passed and one failed test. *)
Definition demo_log : list str :=
  [ u "Test Results for old:"; u "total: 1"; u "Detailed Results:";
    CROSS :: u " stale"; u "Test Results for demo:"; u "Total: 3";
    u "passed: 2"; u "failed: 1"; u "Detailed Results:";
    CHECK :: u " caseA"; u "harmless remark"; CROSS :: u " caseB: some error";
    u "   out line 1"; u ""; u "   out line 2"; CIRCLED_MINUS :: u " caseC";
    u "##[error]Process completed with exit code 1." ].

Definition caseB : TestRecord :=
  {| name := u "caseB"; status := FAILED; note := Some (u "some error");
     output := Some (u "out line 1" ++ [NL; NL] ++ u "out line 2") |}.

(** A build that fails without a test report. *)
Definition make_log : list str :=
  [ u "compile ok"; u ""; u "[command]make all";
    u "link Error: undefined symbol"; u "make: *** stopped";
    u "##[error]Process completed with exit code 2."; u "##[error]again" ].

(** A build whose tests all pass. *)
Definition green_log : list str :=
  [ u "RECIPE: afni"; u "Detected version: 24.1";
    u "Test Results for afni_24.1:"; u "Total: 3"; u "Passed: 3";
    u "Failed: 0"; u "Detailed Results:"; CHECK :: u " a: PASSED";
    CHECK :: u " b"; CHECK :: u " c" ].

(** Three log files of a run, in the order of their paths. *)
Definition run_files : list LogFile :=
  [ {| file_stem := u "make"; file_path := u "logs/a/make.txt";
       file_lines := make_log |};
    {| file_stem := u "demo"; file_path := u "logs/b/demo.txt";
       file_lines := demo_log |};
    {| file_stem := u "afni"; file_path := u "logs/c/afni.txt";
       file_lines := green_log |} ].

(** * Properties *)

(** ** Strings *)

Lemma char_eqb_eq (a b : char) : char_eqb a b = true <-> a = b.
Proof. apply N.eqb_eq. Qed.

Lemma char_eqb_refl (a : char) : char_eqb a a = true.
Proof. apply N.eqb_refl. Qed.

Lemma str_eqb_eq (a b : str) : str_eqb a b = true <-> a = b.
Proof.
  revert b; induction a as [|x a IH]; intros [|y b]; simpl;
    try (split; [discriminate | intros H; discriminate H]);
    try (split; reflexivity).
  rewrite andb_true_iff, char_eqb_eq, IH.
  split; [intros [-> ->]; reflexivity | intros H; injection H; auto].
Qed.

Lemma str_eqb_refl (a : str) : str_eqb a a = true.
Proof. apply str_eqb_eq; reflexivity. Qed.

Lemma is_empty_true {A} (l : list A) : is_empty l = true <-> l = [].
Proof. destruct l; simpl; split; congruence. Qed.

Lemma is_empty_false {A} (l : list A) : is_empty l = false <-> l <> [].
Proof. destruct l; simpl; split; congruence. Qed.

Lemma lstrip_by_split (p : char -> bool) (s : str) :
  exists ws, s = ws ++ lstrip_by p s /\ forallb p ws = true.
Proof.
  induction s as [|c s [ws [E F]]]; simpl.
  - exists []; auto.
  - destruct (p c) eqn:P.
    + exists (c :: ws); simpl; rewrite P, F; split; [f_equal; exact E | reflexivity].
    + exists []; auto.
Qed.

Lemma lstrip_by_head (p : char -> bool) (s : str) (c : char) (r : str) :
  lstrip_by p s = c :: r -> p c = false.
Proof.
  induction s as [|x s IH]; simpl; [discriminate|].
  destruct (p x) eqn:P; [exact IH|].
  intros H; injection H as -> _; exact P.
Qed.

Lemma lstrip_by_app_all (p : char -> bool) (ws s : str) :
  forallb p ws = true -> lstrip_by p (ws ++ s) = lstrip_by p s.
Proof.
  induction ws as [|c ws IH]; simpl; [reflexivity|].
  rewrite andb_true_iff; intros [-> F]; auto.
Qed.

Lemma lstrip_by_fixed (p : char -> bool) (s : str) :
  match s with c :: _ => p c = false | [] => True end -> lstrip_by p s = s.
Proof. destruct s as [|c s]; simpl; [reflexivity | intros ->; reflexivity]. Qed.

Lemma lstrip_by_all (p : char -> bool) (ws : str) :
  forallb p ws = true -> lstrip_by p ws = [].
Proof.
  intros F; rewrite <- (app_nil_r ws), lstrip_by_app_all by exact F.
  reflexivity.
Qed.

Lemma lstrip_by_idem (p : char -> bool) (s : str) :
  lstrip_by p (lstrip_by p s) = lstrip_by p s.
Proof.
  apply lstrip_by_fixed.
  destruct (lstrip_by p s) eqn:E; [exact I | eapply lstrip_by_head; eauto].
Qed.

Lemma forallb_rev {A} (p : A -> bool) (l : list A) :
  forallb p (rev l) = forallb p l.
Proof.
  induction l as [|x l IH]; simpl; [reflexivity|].
  rewrite forallb_app, IH; simpl; rewrite andb_true_r; apply andb_comm.
Qed.

Lemma rstrip_by_split (p : char -> bool) (s : str) :
  exists ws, s = rstrip_by p s ++ ws /\ forallb p ws = true.
Proof.
  unfold rstrip_by.
  destruct (lstrip_by_split p (rev s)) as [ws [E F]].
  exists (rev ws); split.
  - rewrite <- rev_app_distr, <- E, rev_involutive; reflexivity.
  - rewrite forallb_rev; exact F.
Qed.

Lemma rstrip_by_last (p : char -> bool) (s r : str) (c : char) :
  rstrip_by p s = r ++ [c] -> p c = false.
Proof.
  unfold rstrip_by; intros H.
  apply (f_equal (@rev char)) in H.
  rewrite rev_involutive, rev_app_distr in H; simpl in H.
  eapply lstrip_by_head; eauto.
Qed.

Lemma rstrip_by_idem (p : char -> bool) (s : str) :
  rstrip_by p (rstrip_by p s) = rstrip_by p s.
Proof.
  unfold rstrip_by; rewrite rev_involutive, lstrip_by_idem; reflexivity.
Qed.

Lemma rstrip_by_all (p : char -> bool) (ws : str) :
  forallb p ws = true -> rstrip_by p ws = [].
Proof.
  intros F; unfold rstrip_by; rewrite lstrip_by_all; [reflexivity|].
  rewrite forallb_rev; exact F.
Qed.

(** ** Slices *)

Lemma slice_prefix {A} (l : list A) (limit : Z) :
  (0 <= limit)%Z -> slice l None (Some limit) = firstn (Z.to_nat limit) l.
Proof.
  intros H; unfold slice, slice_bound, len.
  destruct (Z.ltb_spec limit 0) as [L|_]; [lia|].
  rewrite Nat.sub_0_r; simpl skipn.
  destruct (Z.le_ge_cases limit (Z.of_nat (length l))) as [L|L].
  - rewrite Z.max_r, Z.min_r by lia; reflexivity.
  - rewrite Z.max_r, Z.min_l, Nat2Z.id by lia.
    rewrite !firstn_all2 by lia; reflexivity.
Qed.

Lemma slice_range {A} (l : list A) (a b : nat) :
  b <= length l ->
  slice l (Some (Z.of_nat a)) (Some (Z.of_nat b)) = firstn (b - a) (skipn a l).
Proof.
  intros H; unfold slice, slice_bound, len.
  destruct (Z.ltb_spec (Z.of_nat a) 0) as [L|_]; [lia|].
  destruct (Z.ltb_spec (Z.of_nat b) 0) as [L|_]; [lia|].
  rewrite (Z.max_r 0 (Z.of_nat b)), (Z.min_r _ (Z.of_nat b)), Nat2Z.id by lia.
  rewrite (Z.max_r 0 (Z.of_nat a)) by lia.
  destruct (Nat.le_gt_cases a (length l)) as [L|L].
  - rewrite Z.min_r, Nat2Z.id by lia; reflexivity.
  - rewrite Z.min_l, Nat2Z.id by lia.
    replace (b - a) with 0 by lia.
    replace (b - length l) with 0 by lia; reflexivity.
Qed.

Lemma slice_suffix {A} (l : list A) (n : nat) :
  0 < n -> slice l (Some (- Z.of_nat n)%Z) None = skipn (length l - n) l.
Proof.
  intros Hn; unfold slice, slice_bound, len.
  assert (E : Z.to_nat
                (Z.min (Z.of_nat (length l))
                   (Z.max 0
                      (if (- Z.of_nat n <? 0)%Z
                       then (- Z.of_nat n + Z.of_nat (length l))%Z
                       else (- Z.of_nat n)%Z))) = length l - n).
  { destruct (Z.ltb_spec (- Z.of_nat n) 0); lia. }
  rewrite E.
  apply firstn_all2; rewrite length_skipn; lia.
Qed.

Lemma slice_prefix_negative {A} (l : list A) (limit : Z) :
  (limit < 0)%Z ->
  slice l None (Some limit) = firstn (Z.to_nat (len l + limit)) l.
Proof.
  intros H; unfold slice, slice_bound, len.
  destruct (Z.ltb_spec limit 0) as [_|L]; [|lia].
  rewrite Nat.sub_0_r; simpl skipn; f_equal; lia.
Qed.

(** ** [clamp_text] *)

(** C5.  [clamp_text] returns a text that is at most [limit] characters
    long unchanged.  A longer text becomes its first [limit] characters
    without their trailing whitespace, a newline, and the marker that
    states [len(text) - limit] omitted characters.  (For a negative limit,
    which is no character count, the kept part is Python's [text[:limit]],
    the text without its last [-limit] characters; the marker still states
    [len(text) - limit].) *)
Theorem clamp_text_spec (text : str) (limit : Z) :
  ((len text <= limit)%Z -> clamp_text text limit = text) /\
  ((0 <= limit < len text)%Z ->
   exists kept ws : str,
     firstn (Z.to_nat limit) text = kept ++ ws /\
     len (kept ++ ws) = limit /\
     forallb is_space ws = true /\
     (forall r c, kept = r ++ [c] -> is_space c = false) /\
     clamp_text text limit =
       kept ++ [NL] ++ u "... (truncated, "
         ++ repr_int (len text - limit) ++ u " more characters)") /\
  ((limit < 0)%Z ->
   clamp_text text limit =
     rstrip (firstn (Z.to_nat (len text + limit)) text) ++ [NL]
       ++ u "... (truncated, " ++ repr_int (len text - limit)
       ++ u " more characters)").
Proof.
  unfold clamp_text; split; [|split]; intros H.
  - destruct (Z.leb_spec (len text) limit); [reflexivity | lia].
  - destruct (Z.leb_spec (len text) limit) as [L|_]; [lia|].
    rewrite slice_prefix by lia.
    destruct (rstrip_by_split is_space (firstn (Z.to_nat limit) text))
      as [ws [E F]].
    exists (rstrip (firstn (Z.to_nat limit) text)), ws.
    split; [exact E|].
    split.
    { unfold rstrip; rewrite <- E; unfold len in *.
      rewrite length_firstn; lia. }
    split; [exact F|].
    split; [intros r c; apply rstrip_by_last | reflexivity].
  - destruct (Z.leb_spec (len text) limit) as [L|_]; [unfold len in L; lia|].
    rewrite slice_prefix_negative by exact H; reflexivity.
Qed.

Lemma clamp_text_spec_witness :
  clamp_text (u "build ok") 4000 = u "build ok" /\
  (exists kept ws : str,
     firstn 7 (u "hello   world") = kept ++ ws /\
     len (kept ++ ws) = 7%Z /\
     forallb is_space ws = true /\
     (forall r c, kept = r ++ [c] -> is_space c = false) /\
     clamp_text (u "hello   world") 7 =
       kept ++ [NL] ++ u "... (truncated, "
         ++ repr_int (len (u "hello   world") - 7) ++ u " more characters)") /\
  clamp_text (u "hello   world") (-2) =
    u "hello   wor" ++ [NL] ++ u "... (truncated, 15 more characters)".
Proof.
  split; [|split].
  - apply (proj1 (clamp_text_spec (u "build ok") 4000)); vm_compute; discriminate.
  - apply (proj1 (proj2 (clamp_text_spec (u "hello   world") 7))); vm_compute.
    split; [discriminate | reflexivity].
  - rewrite (proj2 (proj2 (clamp_text_spec (u "hello   world") (-2))));
      reflexivity.
Defined.

(** A negative limit is no character count: Python's slice then drops the
    last [-limit] characters, and the marker counts more characters than
    the text has. *)
Example clamp_text_negative_limit :
  clamp_text (u "hello   world") (-2) =
    u "hello   wor" ++ [NL] ++ u "... (truncated, 15 more characters)".
Proof. reflexivity. Qed.

Example clamp_text_example :
  clamp_text (u "hello   world") 7 =
    u "hello" ++ [NL] ++ u "... (truncated, 6 more characters)".
Proof. reflexivity. Qed.

(** ** The matcher *)

Lemma rep_match_app R (n : nat) (a : cclass) (ds s : str)
    (k : str -> option R) :
  length ds = n -> forallb (cclass_ok a) ds = true ->
  rep_match n a (ds ++ s) k = k s.
Proof.
  revert n; induction ds as [|d ds IH]; intros n L F; subst n; simpl in *.
  - reflexivity.
  - apply andb_true_iff in F as [-> F]; auto.
Qed.

Lemma rep_match_inv R (n : nat) (a : cclass) (s : str)
    (k : str -> option R) (x : R) :
  rep_match n a s k = Some x ->
  exists ds s', s = ds ++ s' /\ length ds = n /\
                forallb (cclass_ok a) ds = true /\ k s' = Some x.
Proof.
  revert s; induction n as [|n IH]; intros s H; simpl in H.
  - exists [], s; auto.
  - destruct s as [|c s]; [discriminate|].
    destruct (cclass_ok a c) eqn:C; [|discriminate].
    destruct (IH _ H) as (ds & s' & -> & L & F & K).
    exists (c :: ds), s'; simpl; rewrite C, F, L; auto.
Qed.

(** A greedy repetition takes the whole run when what follows the run
    matches. *)
Lemma star_match_run R (a : cclass) (ds s : str) (k : str -> option R)
    (x : R) :
  forallb (cclass_ok a) ds = true ->
  match s with c :: _ => cclass_ok a c = false | [] => True end ->
  k s = Some x ->
  star_match a (ds ++ s) k = Some x.
Proof.
  intros F H K; induction ds as [|d ds IH]; simpl in *.
  - destruct s as [|c s]; simpl; [exact K | rewrite H; exact K].
  - apply andb_true_iff in F as [-> F]; rewrite (IH F); reflexivity.
Qed.

Lemma star_match_inv R (a : cclass) (s : str) (k : str -> option R)
    (x : R) :
  star_match a s k = Some x ->
  exists ds s', s = ds ++ s' /\
                forallb (cclass_ok a) ds = true /\ k s' = Some x.
Proof.
  induction s as [|c s IH]; simpl; intros H.
  - exists [], []; auto.
  - destruct (cclass_ok a c) eqn:C.
    + destruct (star_match a s k) as [y|] eqn:E.
      * injection H as ->.
        destruct (IH eq_refl) as (ds & s' & -> & F & K).
        exists (c :: ds), s'; simpl; rewrite C, F; auto.
      * exists [], (c :: s); auto.
    + exists [], (c :: s); auto.
Qed.

(** Whatever the matcher accepts is a match followed by an input on which
    the continuation succeeds. *)
Lemma re_match_sound R (r : regex) :
  forall (s : str) (k : str -> option R) (x : R),
    re_match r s k = Some x ->
    exists m s', s = m ++ s' /\ matches r m /\ k s' = Some x.
Proof.
  induction r as [a|n a|a|a|r IH|r1 IH1 r2 IH2]; intros s k x H; simpl in H.
  - destruct s as [|c s]; [discriminate|].
    destruct (cclass_ok a c) eqn:C; [|discriminate].
    exists [c], s; repeat split; [constructor; exact C | exact H].
  - destruct (rep_match_inv _ _ _ _ H) as (ds & s' & -> & L & F & K).
    exists ds, s'; repeat split; [constructor; assumption | exact K].
  - destruct (star_match_inv _ _ _ H) as (ds & s' & -> & F & K).
    exists ds, s'; repeat split; [constructor; assumption | exact K].
  - destruct s as [|c s]; [discriminate|].
    destruct (cclass_ok a c) eqn:C; [|discriminate].
    destruct (star_match_inv _ _ _ H) as (ds & s' & -> & F & K).
    exists (c :: ds), s'; repeat split; [constructor; assumption | exact K].
  - destruct (re_match r s k) as [y|] eqn:E.
    + injection H as ->.
      destruct (IH _ _ _ E) as (m & s' & -> & M & K).
      exists m, s'; repeat split; [apply matches_opt; exact M | exact K].
    + exists [], s; repeat split; [apply matches_skip | exact H].
  - destruct (IH1 _ _ _ H) as (m1 & s1 & -> & M1 & K1).
    destruct (IH2 _ _ _ K1) as (m2 & s2 & -> & M2 & K2).
    exists (m1 ++ m2), s2; rewrite app_assoc; repeat split;
      [constructor; assumption | exact K2].
Qed.

(** ** The timestamp pattern *)

Lemma rep_match_lit R (c : char) (s : str) (k : str -> option R) :
  rep_match 1 (Lit c) (c :: s) k = k s.
Proof. simpl; rewrite char_eqb_refl; reflexivity. Qed.

Lemma timestamp_match (token ws rest : str) :
  timestamp_token token -> forallb is_space ws = true ->
  no_leading_space rest ->
  re_match TIMESTAMP_RE (token ++ ws ++ rest) (fun r => Some r) = Some rest.
Proof.
  intros T W H.
  destruct T as [YYYY MM DD hh mm ss frac HY HM HD Hh Hm Hs Hf].
  destruct HY, HM, HD, Hh, Hm, Hs.
  unfold TIMESTAMP_RE.
  repeat rewrite <- app_assoc.
  cbn [re_match].
  change (u "-") with [ch "-"]; change (u "T") with [ch "T"];
    change (u ":") with [ch ":"]; change (u "Z") with [ch "Z"]; cbn [app].
  repeat (rewrite rep_match_app by assumption; rewrite rep_match_lit).
  rewrite rep_match_app by assumption.
  assert (K : rep_match 1 (Lit (ch "Z")) (ch "Z" :: ws ++ rest)
                (fun s => star_match Whitespace s (fun r => Some r)) = Some rest).
  { rewrite rep_match_lit; apply star_match_run; auto. }
  destruct Hf as [|d ds D F]; cbn [app].
  - exact K.
  - rewrite rep_match_lit.
    cbn [rep_match cclass_ok]; rewrite D.
    rewrite (@star_match_run _ Digit ds (ch "Z" :: ws ++ rest) _ _ F eq_refl K).
    reflexivity.
Qed.

Lemma digits_intro (n : nat) (s : str) :
  length s = n -> forallb (cclass_ok Digit) s = true -> digits n s.
Proof. split; assumption. Qed.

Lemma matches_lit_inv (c : char) (m : str) :
  matches (One (Lit c)) m -> m = [c].
Proof.
  inversion 1; subst. simpl in *. apply char_eqb_eq in H1; subst; reflexivity.
Qed.

Lemma matches_fraction_inv (m : str) :
  matches (Opt (One (Lit (ch ".")) ;; Plus Digit)%re) m -> fraction m.
Proof.
  intros M; inversion M as [| | | |r m' M'|r|]; subst; [|constructor].
  inversion M' as [| | | | | |r1 r2 m1 m2 M1 M2]; subst.
  apply matches_lit_inv in M1; subst.
  inversion M2; subst; simpl; constructor; assumption.
Qed.

Lemma timestamp_sound (s rest : str) :
  re_match TIMESTAMP_RE s (fun r => Some r) = Some rest ->
  exists token ws,
    s = token ++ ws ++ rest /\ timestamp_token token /\
    forallb is_space ws = true.
Proof.
  intros H.
  pose proof H as H'; apply re_match_sound in H' as (m & s' & -> & M & E).
  injection E as ->.
  unfold TIMESTAMP_RE in M.
  repeat match goal with
         | M : matches (Seq _ _) _ |- _ => inversion M; subst; clear M
         end.
  repeat match goal with
         | M : matches (One (Lit _)) _ |- _ =>
             apply matches_lit_inv in M; subst
         | M : matches (Rep _ _) _ |- _ => inversion M; subst; clear M
         | M : matches (Star _) _ |- _ => inversion M; subst; clear M
         end.
  match goal with
  | M : matches (Opt _) ?f |- _ => apply matches_fraction_inv in M
  end.
  match goal with
  | |- exists token ws, (?Y ++ _ ++ ?M ++ _ ++ ?D ++ _ ++ ?h ++ _ ++ ?m ++ _
                          ++ ?s ++ ?f ++ _ ++ ?w) ++ _ = _ /\ _ =>
      exists (Y ++ u "-" ++ M ++ u "-" ++ D ++ u "T" ++ h ++ u ":" ++ m
                ++ u ":" ++ s ++ f ++ u "Z"), w
  end.
  split; [repeat rewrite <- app_assoc; reflexivity|].
  split; [constructor; try (split; assumption); assumption | assumption].
Qed.

Lemma remove_char_spec (c : char) (s : str) :
  ~ In c (remove_char c s) /\ (~ In c s -> remove_char c s = s).
Proof.
  unfold remove_char; split.
  - intros H; apply filter_In in H as [_ H].
    rewrite char_eqb_refl in H; discriminate.
  - intros H; induction s as [|x s IH]; simpl; [reflexivity|].
    destruct (char_eqb x c) eqn:E.
    + apply char_eqb_eq in E; subst; exfalso; apply H; left; reflexivity.
    + simpl; f_equal; apply IH; intros I; apply H; right; exact I.
Qed.

(** ** [strip_timestamp] *)

Lemma remove_char_without (c : char) (s : str) :
  without_char c s (remove_char c s).
Proof.
  unfold remove_char; induction s as [|x s IH]; simpl; [constructor|].
  destruct (char_eqb x c) eqn:E; simpl.
  - apply char_eqb_eq in E; subst x; constructor; exact IH.
  - constructor; [|exact IH].
    intros ->; rewrite char_eqb_refl in E; discriminate E.
Qed.

(** [rstrip] cuts whitespace off the end, and all of it. *)
Lemma rstrip_cut (s : str) :
  exists ws,
    s = rstrip s ++ ws /\ forallb is_space ws = true /\
    no_trailing_space (rstrip s).
Proof.
  destruct (rstrip_by_split is_space s) as [ws [E F]].
  exists ws; split; [exact E|]; split; [exact F|].
  intros r c H; eapply rstrip_by_last; exact H.
Qed.

(** C8.  [strip_timestamp] removes every byte-order mark (U+FEFF) and
    keeps every other character; then, when the line begins with a
    timestamp token [YYYY-MM-DDThh:mm:ss[.fraction]Z], it removes that one
    token and the whitespace after it (what follows, a second timestamp
    included, is kept), and a line that does not begin with a timestamp
    token is kept; trailing whitespace, and nothing else, is cut off in
    both cases.  "2024-01-01T00:00:00Z Hello" becomes "Hello". *)
Theorem strip_timestamp_spec (line : str) :
  let clean := remove_char BOM line in
  (~ In BOM clean /\ (~ In BOM line -> clean = line) /\
   without_char 65279%N line clean) /\
  (forall token ws rest,
      clean = token ++ ws ++ rest -> timestamp_token token ->
      forallb is_space ws = true -> no_leading_space rest ->
      strip_timestamp line = rstrip rest) /\
  ((forall token rest, clean = token ++ rest -> ~ timestamp_token token) ->
   strip_timestamp line = rstrip clean) /\
  strip_timestamp (u "2024-01-01T00:00:00Z Hello") = u "Hello" /\
  (forall s : str,
     exists ws,
       s = rstrip s ++ ws /\ forallb is_space ws = true /\
       no_trailing_space (rstrip s)).
Proof.
  intros clean; split.
  { destruct (remove_char_spec BOM line) as [A B].
    split; [exact A|]; split; [exact B | apply remove_char_without]. }
  split; [|split; [|split; [reflexivity | exact rstrip_cut]]].
  - intros token ws rest E T W H; unfold strip_timestamp, re_sub_start.
    fold clean; rewrite E, timestamp_match by assumption; reflexivity.
  - intros H; unfold strip_timestamp, re_sub_start; fold clean.
    destruct (re_match TIMESTAMP_RE clean (fun r => Some r)) as [rest|] eqn:E;
      [|reflexivity].
    apply timestamp_sound in E as (token & ws & E' & T & _).
    exfalso; exact (H _ _ E' T).
Qed.

Lemma timestamp_token_head (token : str) :
  timestamp_token token ->
  exists c t, token = c :: t /\ is_decimal c = true.
Proof.
  intros [YYYY MM DD hh mm ss frac [L F] _ _ _ _ _ _].
  destruct YYYY as [|c YYYY]; [discriminate|].
  simpl in F; apply andb_true_iff in F as [F _].
  eexists c, _; split; [reflexivity | exact F].
Qed.

(** A line that does not begin with a decimal digit does not begin with a
    timestamp token. *)
Lemma no_timestamp_prefix (s : str) :
  match s with c :: _ => is_decimal c = false | [] => True end ->
  forall token rest, s = token ++ rest -> ~ timestamp_token token.
Proof.
  intros H token rest E T.
  destruct (timestamp_token_head T) as (c & t & -> & D).
  subst s; simpl in H; congruence.
Qed.

Lemma strip_timestamp_spec_witness :
  strip_timestamp
    (u "2024-01-01T00:00:00.123Z   Hello 2024-01-01T00:00:00Z x  ")
  = u "Hello 2024-01-01T00:00:00Z x"
  /\ strip_timestamp (u "  plain line  ") = u "  plain line".
Proof.
  split.
  - destruct (strip_timestamp_spec
                (u "2024-01-01T00:00:00.123Z   Hello 2024-01-01T00:00:00Z x  "))
      as (_ & P & _).
    rewrite (P (u "2024-01-01T00:00:00.123Z") (u "   ")
               (u "Hello 2024-01-01T00:00:00Z x  ")).
    + reflexivity.
    + reflexivity.
    + exact (@timestamp_token_intro (u "2024") (u "01") (u "01") (u "00")
               (u "00") (u "00") (u ".123")
               (conj eq_refl eq_refl) (conj eq_refl eq_refl)
               (conj eq_refl eq_refl) (conj eq_refl eq_refl)
               (conj eq_refl eq_refl) (conj eq_refl eq_refl)
               (@fraction_some (ch "1") (u "23") eq_refl eq_refl)).
    + reflexivity.
    + reflexivity.
  - destruct (strip_timestamp_spec (u "  plain line  ")) as (_ & _ & P & _).
    rewrite P; [reflexivity|].
    apply no_timestamp_prefix; reflexivity.
Defined.

Example strip_timestamp_bom :
  strip_timestamp (BOM :: u "2024-01-01T00:00:00Z He" ++ BOM :: u "llo") =
    u "Hello".
Proof. reflexivity. Qed.

Example strip_timestamp_flat :
  forall line, strip_timestamp line = rstrip (strip_timestamp line).
Proof.
  intros line; unfold strip_timestamp, rstrip.
  rewrite rstrip_by_idem; reflexivity.
Qed.

(** ** The test loop *)

Section ParserProperties.
Context {builtins : PyBuiltins}.

(** The body of the test loop, with the lookahead loop as
    [collect_output]. *)
Lemma tests_loop_cons (raw_msg : str) (rest : list str)
    (tests failures : list TestRecord) :
  tests_loop (raw_msg :: rest) tests failures =
    match lstrip raw_msg with
    | [] => tests_loop rest tests failures
    | first :: tail =>
        if startswith_any (first :: tail) SECTION_PREFIXES
        then (tests, failures)
        else if is_marker first then
          let record := make_record first tail in
          if str_eqb (status record) FAILED then
            let '(output_lines, remaining) := collect_output rest [] in
            let record := with_output record output_lines in
            tests_loop remaining (tests ++ [record]) (failures ++ [record])
          else tests_loop rest (tests ++ [record]) failures
        else tests_loop rest tests failures
    end.
Proof.
  cbn [tests_loop].
  destruct (lstrip raw_msg) as [|first tail]; [reflexivity|].
  destruct (startswith_any (first :: tail) SECTION_PREFIXES); [reflexivity|].
  destruct (is_marker first); [|reflexivity].
  cbv zeta.
  destruct (str_eqb (status (make_record first tail)) FAILED); [|reflexivity].
  match goal with
  | |- ?lookahead rest [] = _ =>
      enough (H : forall output_lines,
                 lookahead rest output_lines =
                   let '(lines, remaining) :=
                     collect_output rest output_lines in
                   tests_loop remaining
                     (tests ++ [with_output (make_record first tail) lines])
                     (failures ++ [with_output (make_record first tail) lines]))
        by apply H
  end.
  induction rest as [|nxt_raw ahead IH]; intros output_lines.
  - reflexivity.
  - cbn [collect_output].
    destruct (is_empty (lstrip nxt_raw)); [apply IH|].
    destruct (ends_output (lstrip nxt_raw)); [reflexivity | apply IH].
Qed.

(** The lookahead loop stops on a suffix of the messages it was given. *)
Lemma collect_output_suffix (ahead : list str) :
  forall output_lines lines remaining,
    collect_output ahead output_lines = (lines, remaining) ->
    exists taken, ahead = taken ++ remaining.
Proof.
  induction ahead as [|nxt_raw ahead IH]; intros ol lines remaining; simpl.
  - intros H; injection H as _ <-; exists []; reflexivity.
  - destruct (is_empty (lstrip nxt_raw)).
    + intros H; destruct (IH _ _ _ H) as [taken ->].
      exists (nxt_raw :: taken); reflexivity.
    + destruct (ends_output (lstrip nxt_raw)).
      * intros H; injection H as _ <-; exists []; reflexivity.
      * intros H; destruct (IH _ _ _ H) as [taken ->].
        exists (nxt_raw :: taken); reflexivity.
Qed.

(** The test loop ends, and its result is the one of the relation. *)
Lemma tests_loop_run (msgs : list str) :
  forall tests failures,
    tests_run msgs tests failures (tests_loop msgs tests failures).
Proof.
  remember (length msgs) as n eqn:N; revert msgs N.
  induction n as [n IH] using lt_wf_ind; intros msgs N tests failures.
  destruct msgs as [|raw_msg rest]; [constructor|].
  simpl in N; rewrite tests_loop_cons.
  destruct (lstrip raw_msg) as [|first tail] eqn:L.
  - apply run_blank; [exact L|].
    apply (IH (length rest)); [lia | reflexivity].
  - destruct (startswith_any (first :: tail) SECTION_PREFIXES) eqn:B.
    { eapply run_section; eauto. }
    destruct (is_marker first) eqn:M.
    2:{ eapply run_other; eauto.
        apply (IH (length rest)); [lia | reflexivity]. }
    cbv zeta.
    destruct (str_eqb (status (make_record first tail)) FAILED) eqn:F.
    + destruct (collect_output rest []) as [lines remaining] eqn:C.
      eapply run_failed; eauto; [apply str_eqb_eq; exact F|].
      destruct (collect_output_suffix _ _ C) as [taken E].
      apply (IH (length remaining)); [|reflexivity].
      subst n; rewrite E, length_app; lia.
    + eapply run_test; eauto.
      * intros E; rewrite E, str_eqb_refl in F; discriminate.
      * apply (IH (length rest)); [lia | reflexivity].
Qed.

Lemma records_if_nonempty (l : list TestRecord) : records (if_nonempty l) = l.
Proof. destruct l; reflexivity. Qed.

(** The lists of a parse are the result of the test loop on some suffix of
    the messages. *)
Lemma parse_test_blocks_lists (messages : list str) :
  exists msgs,
    tests_run msgs [] []
      (records (tests (parse_test_blocks messages)),
       records (failures (parse_test_blocks messages))).
Proof.
  unfold parse_test_blocks.
  destruct (find_last_idx messages 0 None) as [last_idx|].
  - destruct (summary_loop (skipn (S last_idx) messages) [])
      as [summary after_summary].
    pose proof (tests_loop_run after_summary [] []) as R.
    destruct (tests_loop after_summary [] []) as [tests failures].
    exists after_summary; simpl; rewrite !records_if_nonempty; exact R.
  - exists []; constructor.
Qed.

Lemma status_with_output (record : TestRecord) (lines : list str) :
  status (with_output record lines) = status record.
Proof. unfold with_output; destruct (is_empty lines); reflexivity. Qed.

Lemma output_make_record (first : char) (tail : str) :
  output (make_record first tail) = None.
Proof.
  unfold make_record.
  destruct (split_once (u ": ") (strip tail)) as [[? ?]|]; reflexivity.
Qed.

Lemma filter_snoc {A} (p : A -> bool) (l : list A) (x : A) :
  filter p (l ++ [x]) = if p x then filter p l ++ [x] else filter p l.
Proof.
  rewrite filter_app; simpl; destruct (p x); [reflexivity | apply app_nil_r].
Qed.

Lemma tests_run_failures msgs tests failures result :
  tests_run msgs tests failures result ->
  failures = filter is_failed tests ->
  snd result = filter is_failed (fst result).
Proof.
  induction 1 as [| | |? ? ? ? ? ? ? ? ? L B M F C R IH
                  |? ? ? ? ? ? ? L B M F R IH|]; intros E; auto.
  - apply IH; rewrite filter_snoc; unfold is_failed at 1.
    rewrite status_with_output, F, str_eqb_refl, E; reflexivity.
  - apply IH; rewrite filter_snoc; unfold is_failed at 1.
    destruct (str_eqb (status (make_record first tail)) FAILED) eqn:S;
      [apply str_eqb_eq in S; contradiction | exact E].
Qed.

Lemma tests_run_output msgs tests failures result :
  tests_run msgs tests failures result ->
  (forall r, In r tests -> output r <> None -> status r = FAILED) ->
  forall r, In r (fst result) -> output r <> None -> status r = FAILED.
Proof.
  induction 1 as [| | |? ? ? ? ? ? ? ? ? L B M F C R IH
                  |? ? ? ? ? ? ? L B M F R IH|]; intros E; auto.
  - apply IH; intros r I; apply in_app_or in I as [I|[<-|[]]]; [auto|].
    intros _; rewrite status_with_output; exact F.
  - apply IH; intros r I; apply in_app_or in I as [I|[<-|[]]]; [auto|].
    rewrite output_make_record; congruence.
Qed.

Lemma failures_filter (messages : list str) :
  records (failures (parse_test_blocks messages)) =
    filter is_failed (records (tests (parse_test_blocks messages))).
Proof.
  destruct (parse_test_blocks_lists messages) as [msgs R].
  exact (tests_run_failures R eq_refl).
Qed.

(** C10.  The [failures] list is the [tests] list restricted to the
    records whose status is "failed", in the same order: a record is in
    [failures] exactly when it is in [tests] and has failed. *)
Theorem failures_are_failed_tests (messages : list str) :
  let info := parse_test_blocks messages in
  records (failures info) = filter is_failed (records (tests info)) /\
  (forall r, In r (records (failures info)) <->
             In r (records (tests info)) /\ status r = FAILED).
Proof.
  intros info; subst info; split; [apply failures_filter|].
  intros r; rewrite failures_filter, filter_In; unfold is_failed.
  rewrite str_eqb_eq; reflexivity.
Qed.

(** C9.  A record of a parse carries an [output] only when its status is
    "failed"; a record whose status is "passed", "skipped" or "unknown"
    carries none. *)
Theorem output_only_when_failed (messages : list str) (r : TestRecord) :
  let info := parse_test_blocks messages in
  In r (records (tests info)) \/ In r (records (failures info)) ->
  (output r <> None -> status r = FAILED) /\
  (status r = PASSED \/ status r = SKIPPED \/ status r = UNKNOWN ->
   output r = None).
Proof.
  intros info I.
  assert (T : In r (records (tests info))).
  { destruct I as [I|I]; [exact I|].
    subst info; rewrite failures_filter in I.
    apply filter_In in I; tauto. }
  assert (O : output r <> None -> status r = FAILED).
  { destruct (parse_test_blocks_lists messages) as [msgs R].
    apply (tests_run_output R); [intros ? []|exact T]. }
  split; [exact O|].
  intros S; destruct (output r) as [o|] eqn:E; [|reflexivity].
  assert (F : status r = FAILED) by (apply O; discriminate).
  rewrite F in S; destruct S as [S|[S|S]]; discriminate S.
Qed.


End ParserProperties.

Example demo_log_parse :
  parse_test_blocks (builtins := ascii_builtins) demo_log =
    {| test_target := Some (u "demo");
       test_summary :=
         Some [(u "total", VInt 3); (u "passed", VInt 2); (u "failed", VInt 1)];
       tests :=
         Some [ {| name := u "caseA"; status := PASSED; note := None;
                   output := None |};
                caseB;
                {| name := u "caseC"; status := SKIPPED; note := None;
                   output := None |} ];
       failures := Some [caseB] |}.
Proof. reflexivity. Qed.



Lemma output_only_when_failed_witness :
  (output caseB <> None -> status caseB = FAILED) /\
  (status caseB = PASSED \/ status caseB = SKIPPED \/ status caseB = UNKNOWN ->
   output caseB = None).
Proof.
  apply (output_only_when_failed (builtins := ascii_builtins) demo_log caseB).
  vm_compute; left; right; left; reflexivity.
Defined.

Lemma failures_are_failed_tests_witness :
  records (failures (parse_test_blocks (builtins := ascii_builtins) demo_log))
  = filter is_failed
      (records (tests (parse_test_blocks (builtins := ascii_builtins)
                         demo_log))).
Proof.
  exact (proj1 (failures_are_failed_tests (builtins := ascii_builtins)
                  demo_log)).
Defined.

(** ** The last header and the summary table *)

Section BlockProperties.
Context {builtins : PyBuiltins}.

Lemma find_last_idx_none (later : list str) :
  forall idx last_idx,
    forallb (fun m => negb (is_header m)) later = true ->
    find_last_idx later idx last_idx = last_idx.
Proof.
  induction later as [|m later IH]; intros idx last_idx H; simpl in *.
  - reflexivity.
  - apply andb_true_iff in H as [N H]; apply negb_true_iff in N.
    rewrite N; apply IH; exact H.
Qed.

Lemma find_last_idx_app (earlier : list str) (header : str)
    (later : list str) :
  is_header header = true ->
  forallb (fun m => negb (is_header m)) later = true ->
  forall idx last_idx,
    find_last_idx (earlier ++ header :: later) idx last_idx =
      Some (idx + length earlier).
Proof.
  intros H N; induction earlier as [|m earlier IH]; intros idx last_idx.
  - simpl; rewrite H, find_last_idx_none by exact N.
    rewrite Nat.add_0_r; reflexivity.
  - simpl; rewrite IH; f_equal; lia.
Qed.

Lemma skipn_middle {A} (l1 : list A) (x : A) (l2 : list A) :
  skipn (S (length l1)) (l1 ++ x :: l2) = l2.
Proof. induction l1 as [|y l1 IH]; [reflexivity | exact IH]. Qed.

(** C4.  The result of the parser is derived from the last line that
    begins with "Test Results for" and from the lines after it: whatever
    comes earlier (earlier reports included) changes nothing.  The target
    comes from that header, the summary table from the lines after it, the
    tests and failures from the lines after the summary table. *)
Theorem last_header_wins (earlier : list str) (header : str)
    (later : list str) :
  is_header header = true ->
  forallb (fun m => negb (is_header m)) later = true ->
  parse_test_blocks (earlier ++ header :: later) =
    parse_test_blocks (header :: later) /\
  parse_test_blocks (header :: later) =
    (let '(summary, after_summary) := summary_loop later [] in
     let '(tests, failures) := tests_loop after_summary [] [] in
     {| test_target :=
          if_nonempty
            (rstrip_chars (u ":")
               (strip (slice (lstrip header) (Some (len TEST_RESULTS_FOR))
                         None)));
        test_summary := if_nonempty summary;
        tests := if_nonempty tests;
        failures := if_nonempty failures |}).
Proof.
  intros H N.
  assert (E : forall earlier,
             parse_test_blocks (earlier ++ header :: later) =
               (let '(summary, after_summary) := summary_loop later [] in
                let '(tests, failures) := tests_loop after_summary [] [] in
                {| test_target :=
                     if_nonempty
                       (rstrip_chars (u ":")
                          (strip (slice (lstrip header)
                                    (Some (len TEST_RESULTS_FOR)) None)));
                   test_summary := if_nonempty summary;
                   tests := if_nonempty tests;
                   failures := if_nonempty failures |})).
  { intros l; unfold parse_test_blocks.
    rewrite find_last_idx_app by assumption; simpl Nat.add.
    rewrite nth_middle, skipn_middle; reflexivity. }
  pose proof (E []) as E0; cbn [app] in E0.
  split; [rewrite (E earlier), E0 | rewrite E0]; reflexivity.
Qed.

(** ** The summary table *)

Lemma startswith_app (s prefix : str) :
  startswith s prefix = true -> s = prefix ++ skipn (length prefix) s.
Proof.
  revert s; induction prefix as [|p prefix IH]; intros [|c s]; simpl;
    try reflexivity; try discriminate.
  rewrite andb_true_iff, char_eqb_eq; intros [-> H]; f_equal; auto.
Qed.

(** [split_once] cuts at an occurrence of the separator. *)
Lemma split_once_app (sep s a b : str) :
  split_once sep s = Some (a, b) -> s = a ++ sep ++ b.
Proof.
  revert a b; induction s as [|c s IH]; intros a b; cbn [split_once].
  - destruct (startswith [] sep) eqn:S; [|discriminate].
    intros H; injection H as <- <-; apply (startswith_app _ _ S).
  - destruct (startswith (c :: s) sep) eqn:S.
    + intros H; injection H as <- <-; apply (startswith_app _ _ S).
    + destruct (split_once sep s) as [[a' b']|]; [|discriminate].
      intros H; injection H as <- <-; simpl; f_equal; auto.
Qed.

Lemma dict_get_set (key : str) (v : value) (d : dict) :
  dict_get key (dict_set key v d) = Some v.
Proof.
  induction d as [|[k w] d IH]; simpl.
  - rewrite str_eqb_refl; reflexivity.
  - destruct (str_eqb k key) eqn:E; simpl; rewrite E; auto.
Qed.

Lemma detailed_results_colon (x : str) :
  split_once (u ":") (DETAILED_RESULTS ++ x) = Some (u "Detailed Results", x).
Proof. reflexivity. Qed.

Lemma summary_loop_cons (raw_msg : str) (rest : list str) (summary : dict) :
  summary_loop (raw_msg :: rest) summary =
    if is_empty (lstrip raw_msg) then summary_loop rest summary
    else if startswith (lstrip raw_msg) DETAILED_RESULTS then (summary, rest)
    else
      match split_once (u ":") (lstrip raw_msg) with
      | Some (key, v) =>
          summary_loop rest
            (dict_set (py_lower (strip key)) (summary_value (strip v))
               summary)
      | None => (summary, raw_msg :: rest)
      end.
Proof. reflexivity. Qed.

Lemma summary_loop_pairs (pairs tail : list str) :
  forallb (fun m => blank_line m || pair_line m) pairs = true ->
  forall summary,
    summary_loop (pairs ++ tail) summary =
      summary_loop tail
        (fold_left store (filter (fun m => negb (blank_line m)) pairs)
           summary).
Proof.
  induction pairs as [|m pairs IH]; intros H summary; simpl in *.
  - reflexivity.
  - apply andb_true_iff in H as [K H].
    unfold blank_line in *.
    destruct (is_empty (lstrip m)) eqn:B; simpl; [apply IH; exact H|].
    unfold pair_line, blank_line, contains in K; rewrite B in K; simpl in K.
    apply andb_true_iff in K as [D C]; apply negb_true_iff in D.
    unfold DETAILED_RESULTS in *; rewrite D.
    unfold store at 2, pair_of.
    destruct (split_once (u ":") (lstrip m)) as [[key v]|]; [|discriminate].
    rewrite IH by exact H; reflexivity.
Qed.

(** C6.  The summary loop consumes the [key: value] lines, skipping blank
    lines, up to a line that starts with "Detailed Results:" (consumed), a
    line without a colon (not consumed), or the end of the messages.  A
    consumed pair is stored under its lower-cased key, as an integer when
    the value parses as one and as the trimmed text otherwise. *)
Theorem summary_loop_spec (pairs : list str) (stop : str) (rest : list str)
    (summary : dict) :
  forallb (fun m => blank_line m || pair_line m) pairs = true ->
  let table :=
    fold_left store (filter (fun m => negb (blank_line m)) pairs) summary in
  (detailed_line stop = true ->
   summary_loop (pairs ++ stop :: rest) summary = (table, rest)) /\
  (colonless_line stop = true ->
   summary_loop (pairs ++ stop :: rest) summary = (table, stop :: rest)) /\
  summary_loop pairs summary = (table, []) /\
  (forall line, pair_line line = true ->
     exists key v,
       lstrip line = key ++ u ":" ++ v /\
       store summary line =
         dict_set (py_lower (strip key))
           (match py_int (strip v) with
            | Some n => VInt n
            | None => VStr (strip v)
            end) summary /\
       dict_get (py_lower (strip key)) (store summary line) =
         Some (match py_int (strip v) with
               | Some n => VInt n
               | None => VStr (strip v)
               end)).
Proof.
  intros H table; repeat split.
  - intros D; rewrite summary_loop_pairs by exact H; fold table.
    unfold detailed_line in D; rewrite summary_loop_cons, D.
    destruct (lstrip stop); [discriminate D | reflexivity].
  - intros C; rewrite summary_loop_pairs by exact H; fold table.
    unfold colonless_line, blank_line, contains in C.
    apply andb_true_iff in C as [B C]; apply negb_true_iff in B.
    rewrite summary_loop_cons, B.
    destruct (split_once (u ":") (lstrip stop)) as [[? ?]|] eqn:S;
      [discriminate|].
    destruct (startswith (lstrip stop) DETAILED_RESULTS) eqn:D;
      [|reflexivity].
    apply startswith_app in D.
    rewrite D, detailed_results_colon in S; discriminate S.
  - rewrite <- (app_nil_r pairs) at 1.
    rewrite summary_loop_pairs by exact H; reflexivity.
  - intros line P; unfold pair_line, contains in P.
    apply andb_true_iff in P as [_ P].
    unfold store, pair_of.
    destruct (split_once (u ":") (lstrip line)) as [[key v]|] eqn:S;
      [|discriminate].
    exists key, v; split; [exact (split_once_app _ _ S)|].
    split; [reflexivity | apply dict_get_set].
Qed.

End BlockProperties.

Lemma last_header_wins_witness :
  parse_test_blocks (builtins := ascii_builtins)
    (firstn 4 demo_log ++ nth 4 demo_log [] :: skipn 5 demo_log) =
  parse_test_blocks (builtins := ascii_builtins)
    (nth 4 demo_log [] :: skipn 5 demo_log).
Proof.
  apply (@last_header_wins ascii_builtins (firstn 4 demo_log)
           (nth 4 demo_log []) (skipn 5 demo_log)); reflexivity.
Defined.

Lemma summary_loop_spec_witness :
  summary_loop (builtins := ascii_builtins)
    ([u "Total: 3"; u ""; u "  passed: 2"; u "Mode: quick run "]
       ++ u "Detailed Results:" :: [CHECK :: u " a"]) []
  = ([(u "total", VInt 3); (u "passed", VInt 2);
      (u "mode", VStr (u "quick run"))], [CHECK :: u " a"])
  /\ summary_loop (builtins := ascii_builtins)
       ([u "Total: 3"] ++ (CHECK :: u " a") :: []) []
     = ([(u "total", VInt 3)], [CHECK :: u " a"]).
Proof.
  split.
  - apply (@summary_loop_spec ascii_builtins
             [u "Total: 3"; u ""; u "  passed: 2"; u "Mode: quick run "]
             (u "Detailed Results:") [CHECK :: u " a"] [] eq_refl).
    reflexivity.
  - apply (@summary_loop_spec ascii_builtins [u "Total: 3"]
             (CHECK :: u " a") [] [] eq_refl).
    reflexivity.
Defined.

(** ** [collect_failure_context] *)

Section ContextProperties.
Context {builtins : PyBuiltins}.

(** The first position that [parse_log] collects is the position of the
    first message that starts with the error marker. *)
Lemma error_positions_first (messages : list str) :
  forall idx,
    match first_error messages with
    | None => error_positions messages idx = []
    | Some n =>
        n < length messages /\
        exists others,
          error_positions messages idx = (idx + Z.of_nat n)%Z :: others
    end.
Proof.
  induction messages as [|msg rest IH]; intros idx;
    cbn [first_error error_positions length].
  - reflexivity.
  - destruct (startswith msg ERROR_MARKER).
    + split; [lia|]; eexists; rewrite Z.add_0_r; reflexivity.
    + specialize (IH (idx + 1)%Z).
      destruct (first_error rest) as [n|]; cbn [option_map]; [|exact IH].
      destruct IH as [L [others E]]; split; [lia|].
      exists others; rewrite E; f_equal; lia.
Qed.

Lemma skipn_In {A} (n : nat) (l : list A) (x : A) :
  In x (skipn n l) -> In x l.
Proof.
  intros H; rewrite <- (firstn_skipn n l); apply in_or_app; right; exact H.
Qed.

Lemma firstn_In {A} (n : nat) (l : list A) (x : A) :
  In x (firstn n l) -> In x l.
Proof.
  intros H; rewrite <- (firstn_skipn n l); apply in_or_app; left; exact H.
Qed.

(** On a normalized message, blank means empty. *)
Lemma normalized_blank (msg : str) :
  normalized msg -> whitespace_only msg = is_empty msg.
Proof.
  unfold normalized, whitespace_only; intros N.
  destruct (forallb is_space msg) eqn:F.
  - apply rstrip_by_all in F; unfold rstrip in N; rewrite F in N.
    subst msg; reflexivity.
  - destruct msg; [discriminate F | reflexivity].
Qed.

Lemma strip_timestamp_normalized (line : str) :
  normalized (strip_timestamp line).
Proof. unfold normalized, strip_timestamp, rstrip; apply rstrip_by_idem. Qed.

Lemma spec_failure_context_ext (blank1 blank2 : str -> bool)
    (messages : list str) :
  (forall msg, In msg messages -> blank1 msg = blank2 msg) ->
  spec_failure_context blank1 messages = spec_failure_context blank2 messages.
Proof.
  intros H; unfold spec_failure_context.
  destruct (first_error messages) as [idx|]; [|reflexivity].
  assert (E : filter (fun msg => negb (blank1 msg) && negb (noise_line msg))
                (last_n 30 (firstn idx messages)) =
              filter (fun msg => negb (blank2 msg) && negb (noise_line msg))
                (last_n 30 (firstn idx messages))).
  { apply filter_ext_in; intros msg I.
    rewrite H; [reflexivity|].
    eapply firstn_In, skipn_In; exact I. }
  cbv zeta; rewrite E; reflexivity.
Qed.

End ContextProperties.


(** ** [parse_log] *)

Section EntryProperties.
Context {builtins : PyBuiltins}.

Lemma error_positions_empty (messages : list str) :
  forall idx,
    is_empty (error_positions messages idx) =
      negb (existsb (fun msg => startswith msg ERROR_MARKER) messages).
Proof.
  induction messages as [|msg rest IH]; intros idx;
    cbn [error_positions existsb].
  - reflexivity.
  - destruct (startswith msg ERROR_MARKER); [reflexivity | apply IH].
Qed.

Lemma entry_status_eq (stem path : str) (messages : list str) :
  entry_status (parse_messages stem path messages) =
    if existsb (fun msg => startswith msg ERROR_MARKER) messages
    then FAILED else SUCCEEDED.
Proof.
  unfold parse_messages; cbv zeta.
  match goal with
  | |- context [let '(_, _) := ?X in _] => destruct X
  end.
  cbn [entry_status]; rewrite error_positions_empty.
  destruct (existsb _ messages); reflexivity.
Qed.

Lemma succeeded_entry (stem path : str) (messages : list str) :
  entry_status (parse_messages stem path messages) = SUCCEEDED ->
  parse_messages stem path messages =
    {| entry_name := stem;
       entry_path := path;
       recipe := truthy (extract_env_value messages (u "RECIPE"));
       version := version (parse_messages stem path messages);
       entry_status := SUCCEEDED;
       entry_tests := parse_test_blocks messages;
       reason := success_reason (parse_test_blocks messages);
       failure_output := None |}.
Proof.
  rewrite entry_status_eq; intros S.
  unfold parse_messages; cbv zeta; rewrite error_positions_empty.
  destruct (existsb _ messages); [discriminate S | reflexivity].
Qed.

Lemma test_summary_nonempty (messages : list str) (summary : dict) :
  test_summary (parse_test_blocks messages) = Some summary -> summary <> [].
Proof.
  unfold parse_test_blocks.
  destruct (find_last_idx messages 0 None); [|discriminate].
  destruct (summary_loop _ []) as [table after_summary].
  destruct (tests_loop after_summary [] []) as [tests failures].
  cbn [test_summary]; unfold if_nonempty.
  destruct table; [discriminate|].
  intros H; injection H as <-; discriminate.
Qed.

(** C2, as the code has it.  The status is "failed" exactly when some
    message starts with [##[error]] at its first character, and
    "succeeded" otherwise; the message is not left-stripped for this
    test. *)
Theorem status_from_error_marker (stem path : str) (messages : list str) :
  let entry := parse_messages stem path messages in
  (entry_status entry = FAILED <->
   exists msg, In msg messages /\ startswith msg ERROR_MARKER = true) /\
  (entry_status entry = SUCCEEDED <->
   forall msg, In msg messages -> startswith msg ERROR_MARKER = false).
Proof.
  intros entry; subst entry; rewrite entry_status_eq.
  destruct (existsb (fun msg => startswith msg ERROR_MARKER) messages) eqn:E.
  - apply existsb_exists in E as [msg [I S]].
    split; split; intros H.
    + exists msg; auto.
    + reflexivity.
    + discriminate H.
    + rewrite (H msg I) in S; discriminate S.
  - split; split; intros H.
    + discriminate H.
    + destruct H as [msg [I S]].
      assert (X : existsb (fun msg => startswith msg ERROR_MARKER) messages
                  = true) by (apply existsb_exists; eauto).
      rewrite X in E; discriminate E.
    + intros msg I; destruct (startswith msg ERROR_MARKER) eqn:S; [|reflexivity].
      assert (X : existsb (fun msg => startswith msg ERROR_MARKER) messages
                  = true) by (apply existsb_exists; eauto).
      rewrite X in E; discriminate E.
    + reflexivity.
Qed.

(** C7.  For an entry whose status is "succeeded": with a test summary
    whose [failed] value is 0 the reason is "All tests passed (P of T)."
    when [passed] and [total] are both present, "All tests passed (P)."
    when only [passed] is, and "All tests passed." otherwise; without such
    a summary it is "All tests completed without failures." when tests
    were parsed and "Completed without reported failures." when none
    were. *)
Theorem success_reason_spec (stem path : str) (messages : list str) :
  let entry := parse_messages stem path messages in
  let info := parse_test_blocks messages in
  entry_status entry = SUCCEEDED ->
  (forall summary,
     test_summary info = Some summary ->
     dict_get FAILED summary = Some (VInt 0) ->
     reason entry =
       match dict_get PASSED summary, dict_get (u "total") summary with
       | Some p, Some t =>
           u "All tests passed (" ++ format_value p ++ u " of "
             ++ format_value t ++ u ")."
       | Some p, None => u "All tests passed (" ++ format_value p ++ u ")."
       | None, _ => u "All tests passed."
       end) /\
  ((forall summary,
      test_summary info = Some summary ->
      dict_get FAILED summary <> Some (VInt 0)) ->
   (tests info <> None ->
    reason entry = u "All tests completed without failures.") /\
   (tests info = None ->
    reason entry = u "Completed without reported failures.")).
Proof.
  intros entry info S; subst entry info.
  rewrite (succeeded_entry _ _ _ S); cbn [reason].
  unfold success_reason; cbv zeta; split.
  - intros summary T F; rewrite T, F.
    pose proof (test_summary_nonempty _ T) as N.
    apply is_empty_false in N; rewrite N; cbn [negb andb].
    destruct (dict_get (u "total") summary), (dict_get PASSED summary);
      reflexivity.
  - intros H.
    destruct (test_summary (parse_test_blocks messages)) as [summary|].
    + specialize (H summary eq_refl).
      destruct (dict_get FAILED summary) as [[[| |]|]|];
        try (rewrite andb_false_r;
             destruct (tests (parse_test_blocks messages));
             split; intros X; congruence).
      contradiction H; reflexivity.
    + cbn [is_empty negb andb].
      destruct (tests (parse_test_blocks messages)); split; intros X;
        congruence.
Qed.

End EntryProperties.

(** C2 as stated fails: the message below is normalized and starts with
    [##[error]] after left-stripping, and the status is "succeeded". *)
Lemma indented_error_counterexample :
  map strip_timestamp [u "  ##[error]boom"] = [u "  ##[error]boom"] /\
  startswith (lstrip (u "  ##[error]boom")) ERROR_MARKER = true /\
  entry_status
    (parse_messages (builtins := ascii_builtins) (u "job") (u "logs/job.txt")
       [u "  ##[error]boom"]) = SUCCEEDED.
Proof. repeat split. Qed.

Lemma status_from_error_marker_witness :
  entry_status
    (parse_messages (builtins := ascii_builtins) (u "job") (u "logs/job.txt")
       make_log) = FAILED.
Proof.
  apply (proj1 (@status_from_error_marker ascii_builtins (u "job")
                  (u "logs/job.txt") make_log)).
  exists (u "##[error]again"); split; [|reflexivity].
  simpl; auto 10.
Defined.

Lemma success_reason_spec_witness :
  reason
    (parse_messages (builtins := ascii_builtins) (u "afni")
       (u "logs/afni.txt") green_log) = u "All tests passed (3 of 3).".
Proof.
  destruct (@success_reason_spec ascii_builtins (u "afni") (u "logs/afni.txt")
              green_log eq_refl) as [P _].
  exact (P [(u "total", VInt 3); (u "passed", VInt 3); (u "failed", VInt 0)]
           eq_refl eq_refl).
Defined.

Example green_log_entry :
  parse_log (builtins := ascii_builtins) (u "afni") (u "logs/afni.txt")
    (map (fun m => u "2024-05-06T07:08:09.1234567Z " ++ m) green_log)
  = {| entry_name := u "afni";
       entry_path := u "logs/afni.txt";
       recipe := Some (u "afni");
       version := Some (u "24.1");
       entry_status := SUCCEEDED;
       entry_tests :=
         {| test_target := Some (u "afni_24.1");
            test_summary :=
              Some [(u "total", VInt 3); (u "passed", VInt 3);
                    (u "failed", VInt 0)];
            tests :=
              Some [ {| name := u "a"; status := PASSED; note := None;
                        output := None |};
                     {| name := u "b"; status := PASSED; note := None;
                        output := None |};
                     {| name := u "c"; status := PASSED; note := None;
                        output := None |} ];
            failures := None |};
       reason := u "All tests passed (3 of 3).";
       failure_output := None |}.
Proof. reflexivity. Qed.

Example demo_log_entry :
  let entry :=
    parse_log (builtins := ascii_builtins) (u "demo") (u "logs/demo.txt")
      demo_log in
  entry_status entry = FAILED /\
  reason entry = u "Tests failed: caseB" /\
  failure_output entry =
    Some (u "out line 1" ++ [NL; NL] ++ u "out line 2").
Proof. repeat split. Qed.

(** ** The split of an environment line *)

Lemma startswith_prefix (prefix s : str) : startswith (prefix ++ s) prefix = true.
Proof.
  induction prefix as [|p prefix IH]; simpl; [reflexivity|].
  rewrite char_eqb_refl; exact IH.
Qed.

Lemma split_once_found (sep a b : str) :
  exists x, split_once sep (a ++ sep ++ b) = Some x.
Proof.
  induction a as [|c a [x IH]].
  - destruct sep as [|p sep]; [destruct b|]; cbn [app split_once].
    + eexists; reflexivity.
    + eexists; reflexivity.
    + change (p :: sep ++ b) with ((p :: sep) ++ b).
      rewrite startswith_prefix; eexists; reflexivity.
  - cbn [app split_once].
    destruct (startswith (c :: a ++ sep ++ b) sep); [eexists; reflexivity|].
    rewrite IH; destruct x; eexists; reflexivity.
Qed.

(** A message that starts with [prefix + ":"] has a second part after its
    first colon: the index [[1]] in [after_colon] is in range. *)
Lemma after_colon_defined (prefix msg : str) :
  startswith msg (prefix ++ u ":") = true ->
  exists key v, split_once (u ":") msg = Some (key, v).
Proof.
  intros H; apply startswith_app in H; rewrite H, <- app_assoc.
  destruct (split_once_found (u ":") prefix
              (skipn (length (prefix ++ u ":")) msg)) as [[key v] E].
  exists key, v; exact E.
Qed.

(** * More of the script *)

(** ** Stripping *)

Lemma lstrip_by_length (p : char -> bool) (s : str) :
  length (lstrip_by p s) <= length s.
Proof.
  induction s as [|c s IH]; simpl; [lia|].
  destruct (p c); simpl; lia.
Qed.

Lemma rstrip_by_length (p : char -> bool) (s : str) :
  length (rstrip_by p s) <= length s.
Proof.
  unfold rstrip_by; rewrite length_rev.
  rewrite <- (length_rev s); apply lstrip_by_length.
Qed.





(** Removing trailing whitespace keeps a first character that is not
    whitespace. *)
Lemma rstrip_by_head (p : char -> bool) (c : char) (s : str) :
  p c = false -> exists r, rstrip_by p (c :: s) = c :: r.
Proof.
  intros P; destruct (rstrip_by_split p (c :: s)) as [ws [E F]].
  destruct (rstrip_by p (c :: s)) as [|d r].
  - simpl in E; subst ws; simpl in F; rewrite P in F; discriminate F.
  - injection E as <- _; exists r; reflexivity.
Qed.

(** ** More on [strip_timestamp] *)



(** X2.  When a line (without its byte-order marks) begins with a timestamp
    token, the message is what follows the token, without the whitespace
    on both of its sides: the indentation of a timestamped line is
    lost. *)
Theorem timestamped_line (line token rest : str) :
  remove_char BOM line = token ++ rest ->
  timestamp_token token ->
  strip_timestamp line = rstrip (lstrip rest) /\
  no_leading_space (strip_timestamp line).
Proof.
  intros E T.
  assert (S : strip_timestamp line = rstrip (lstrip rest)).
  { unfold strip_timestamp, re_sub_start; rewrite E.
    destruct (lstrip_by_split is_space rest) as [ws [R F]].
    rewrite R at 1; fold (lstrip rest).
    rewrite timestamp_match; [reflexivity | exact T | exact F |].
    unfold no_leading_space, lstrip.
    destruct (lstrip_by is_space rest) eqn:L; [exact I|].
    eapply lstrip_by_head; exact L. }
  split; [exact S|].
  rewrite S; unfold no_leading_space, lstrip.
  destruct (lstrip_by is_space rest) as [|c r] eqn:L; [exact I|].
  assert (P : is_space c = false) by (eapply lstrip_by_head; exact L).
  destruct (@rstrip_by_head is_space c r P) as [r' R].
  unfold rstrip; rewrite R; exact P.
Qed.

Lemma timestamped_line_witness :
  strip_timestamp (u "2024-01-01T00:00:00Z    ##[error]boom  ") =
    rstrip (lstrip (u "    ##[error]boom  ")) /\
  no_leading_space
    (strip_timestamp (u "2024-01-01T00:00:00Z    ##[error]boom  ")).
Proof.
  apply (@timestamped_line (u "2024-01-01T00:00:00Z    ##[error]boom  ")
           (u "2024-01-01T00:00:00Z") (u "    ##[error]boom  ")).
  - reflexivity.
  - exact (@timestamp_token_intro (u "2024") (u "01") (u "01") (u "00")
             (u "00") (u "00") []
             (conj eq_refl eq_refl) (conj eq_refl eq_refl)
             (conj eq_refl eq_refl) (conj eq_refl eq_refl)
             (conj eq_refl eq_refl) (conj eq_refl eq_refl) fraction_none).
Defined.

(** ** More on [clamp_text] *)

(** X3.  For a limit that is not negative, the clamped text is never longer
    than the limit plus the newline and the marker (34 characters and the
    digits of the count). *)
Theorem clamp_text_length (text : str) (limit : Z) :
  (0 <= limit)%Z ->
  (len (clamp_text text limit) <=
     limit + 34 + len (repr_int (len text - limit)))%Z.
Proof.
  intros H; unfold clamp_text.
  destruct (Z.leb_spec (len text) limit) as [L|L].
  - unfold len in *; lia.
  - rewrite slice_prefix by exact H.
    unfold truncation_marker, len, rstrip.
    rewrite !length_app.
    pose proof (rstrip_by_length is_space (firstn (Z.to_nat limit) text)) as R.
    rewrite length_firstn in R.
    change (length [NL]) with 1; change (length (u "... (truncated, ")) with 16.
    change (length (u " more characters)")) with 17.
    unfold len in L; lia.
Qed.

Lemma clamp_text_length_witness :
  (len (clamp_text (u "hello   world") 7) <=
     7 + 34 + len (repr_int (len (u "hello   world") - 7)))%Z.
Proof. apply clamp_text_length; lia. Defined.

(** ** More on [parse_test_blocks] *)

Section MoreParser.
Context {builtins : PyBuiltins}.

(** A property of the records that every test line gives and that the
    attached output keeps holds for all the records of the loop. *)
Lemma tests_run_forall (P : TestRecord -> Prop) msgs tests failures result :
  (forall first tail, is_marker first = true -> P (make_record first tail)) ->
  (forall r lines, P r -> P (with_output r lines)) ->
  tests_run msgs tests failures result ->
  Forall P tests -> Forall P (fst result).
Proof.
  intros M W; induction 1 as [| | |? ? ? ? ? ? ? ? ? L B K F C R IH
                              |? ? ? ? ? ? ? L B K F R IH|]; intros T; auto.
  - apply IH, Forall_app; split; [exact T|]; repeat constructor; auto.
  - apply IH, Forall_app; split; [exact T|]; repeat constructor; auto.
Qed.

Lemma parse_test_blocks_forall (P : TestRecord -> Prop) (messages : list str) :
  (forall first tail, is_marker first = true -> P (make_record first tail)) ->
  (forall r lines, P r -> P (with_output r lines)) ->
  Forall P (records (tests (parse_test_blocks messages))).
Proof.
  intros M W; destruct (parse_test_blocks_lists messages) as [msgs R].
  exact (tests_run_forall M W R (Forall_nil P)).
Qed.

(** X4.  Without a line that begins (after its indentation) with
    "Test Results for", the parser returns the empty result: no target, no
    summary, no tests, no failures. *)
Theorem no_header_no_tests (messages : list str) :
  forallb (fun m => negb (is_header m)) messages = true ->
  parse_test_blocks messages = no_tests.
Proof.
  intros H; unfold parse_test_blocks.
  rewrite find_last_idx_none by exact H; reflexivity.
Qed.

Lemma status_make_record (first : char) (tail : str) :
  status (make_record first tail) = status_of first.
Proof.
  unfold make_record.
  destruct (split_once (u ": ") (strip tail)) as [[? ?]|]; reflexivity.
Qed.

Lemma status_of_marker (first : char) :
  is_marker first = true ->
  (first = CHECK /\ status_of first = PASSED) \/
  (first = CROSS /\ status_of first = FAILED) \/
  (first = CIRCLED_MINUS /\ status_of first = SKIPPED).
Proof.
  unfold is_marker, TEST_MARKERS, status_of; cbn [existsb].
  destruct (char_eqb first CHECK) eqn:A.
  { apply char_eqb_eq in A; auto. }
  destruct (char_eqb first CROSS) eqn:B.
  { apply char_eqb_eq in B; auto. }
  destruct (char_eqb first CIRCLED_MINUS) eqn:C.
  { apply char_eqb_eq in C; auto. }
  discriminate.
Qed.

(** X5.  The status of a parsed record is "passed", "failed" or "skipped";
    the fallback "unknown" of the status map is never used. *)
Theorem status_never_unknown (messages : list str) (r : TestRecord) :
  In r (records (tests (parse_test_blocks messages))) ->
  (status r = PASSED \/ status r = FAILED \/ status r = SKIPPED) /\
  status r <> UNKNOWN.
Proof.
  intros I.
  assert (S : status r = PASSED \/ status r = FAILED \/ status r = SKIPPED).
  { revert r I; apply Forall_forall, parse_test_blocks_forall.
    - intros first tail M; rewrite status_make_record.
      destruct (status_of_marker first M) as [[_ ->]|[[_ ->]|[_ ->]]]; auto.
    - intros r lines; rewrite status_with_output; auto. }
  split; [exact S|].
  destruct S as [-> | [-> | ->]]; discriminate.
Qed.


Lemma find_last_idx_some (messages : list str) :
  forall idx last_idx i,
    find_last_idx messages idx last_idx = Some i ->
    last_idx = Some i \/
    exists header, In header messages /\ is_header header = true /\
                   nth (i - idx) messages [] = header /\ idx <= i.
Proof.
  induction messages as [|m rest IH]; intros idx last_idx i; simpl.
  - auto.
  - intros H; apply IH in H as [H|(header & I & E & N & L)].
    + destruct (is_header m) eqn:M; [|auto].
      injection H as <-; right; exists m.
      rewrite Nat.sub_diag; auto.
    + right; exists header; repeat split; auto; [|lia].
      replace (i - idx) with (S (i - S idx)) by lia; exact N.
Qed.

(** X7.  A target, when the result has one, is not empty and does not end
    with a colon; it is the text after "Test Results for" of a header line
    of the log, stripped. *)
Theorem test_target_shape (messages : list str) (target : str) :
  test_target (parse_test_blocks messages) = Some target ->
  target <> [] /\
  (forall r c, target = r ++ [c] -> c <> ch ":") /\
  exists header,
    In header messages /\ is_header header = true /\
    target =
      rstrip_chars (u ":")
        (strip (slice (lstrip header) (Some (len TEST_RESULTS_FOR)) None)).
Proof.
  unfold parse_test_blocks.
  destruct (find_last_idx messages 0 None) as [last_idx|] eqn:F;
    [|discriminate].
  destruct (summary_loop _ []) as [summary after_summary].
  destruct (tests_loop after_summary [] []) as [tests failures].
  cbn [test_target]; unfold if_nonempty.
  destruct (is_empty _) eqn:E; [discriminate|].
  intros H; injection H as <-.
  split; [apply is_empty_false; exact E|].
  split.
  - intros r c X; unfold rstrip_chars in X.
    apply rstrip_by_last in X; cbn [existsb] in X.
    intros ->; discriminate X.
  - apply find_last_idx_some in F as [F|(header & I & H & N & _)];
      [discriminate F|].
    rewrite Nat.sub_0_r in N; rewrite N.
    exists header; auto.
Qed.

(** ** The keys of the summary table *)

Lemma dict_set_In (key : str) (v : value) (d : dict) (k : str) :
  In k (map fst (dict_set key v d)) -> k = key \/ In k (map fst d).
Proof.
  induction d as [|[k0 w] d IH]; simpl.
  - intros [<-|[]]; auto.
  - destruct (str_eqb k0 key); simpl; [auto|].
    intros [<-|H]; [auto|]; destruct (IH H); auto.
Qed.

Lemma dict_set_NoDup (key : str) (v : value) (d : dict) :
  NoDup (map fst d) -> NoDup (map fst (dict_set key v d)).
Proof.
  induction d as [|[k0 w] d IH]; simpl; intros H.
  - repeat constructor; intros [].
  - destruct (str_eqb k0 key) eqn:E; simpl; [exact H|].
    inversion H as [|? ? N D]; subst; constructor; [|auto].
    intros I; apply dict_set_In in I as [->|I]; [|contradiction].
    rewrite str_eqb_refl in E; discriminate E.
Qed.

(** A new value for a key leaves the other keys alone. *)
Lemma dict_get_set_other (key k : str) (v : value) (d : dict) :
  k <> key -> dict_get k (dict_set key v d) = dict_get k d.
Proof.
  intros N; induction d as [|[k0 w] d IH]; simpl.
  - destruct (str_eqb key k) eqn:E; [|reflexivity].
    apply str_eqb_eq in E; congruence.
  - destruct (str_eqb k0 key) eqn:E; simpl.
    + apply str_eqb_eq in E; subst k0.
      destruct (str_eqb key k) eqn:E'; [|reflexivity].
      apply str_eqb_eq in E'; congruence.
    + rewrite IH; reflexivity.
Qed.

Lemma summary_loop_NoDup (msgs : list str) :
  forall summary,
    NoDup (map fst summary) ->
    NoDup (map fst (fst (summary_loop msgs summary))).
Proof.
  induction msgs as [|raw_msg rest IH]; intros summary H; [exact H|].
  rewrite summary_loop_cons.
  destruct (is_empty (lstrip raw_msg)); [auto|].
  destruct (startswith (lstrip raw_msg) DETAILED_RESULTS); [exact H|].
  destruct (split_once (u ":") (lstrip raw_msg)) as [[key v]|]; [|exact H].
  apply IH, dict_set_NoDup; exact H.
Qed.

(** X8.  The keys of the summary table of a result are pairwise distinct:
    a key that occurs again in the log replaces the value stored for
    it. *)
Theorem summary_keys_distinct (messages : list str) (summary : dict) :
  test_summary (parse_test_blocks messages) = Some summary ->
  NoDup (map fst summary).
Proof.
  unfold parse_test_blocks.
  destruct (find_last_idx messages 0 None) as [last_idx|]; [|discriminate].
  assert (N : NoDup (map fst (fst (summary_loop
                                     (skipn (S last_idx) messages) []))))
    by (apply summary_loop_NoDup; constructor).
  destruct (summary_loop _ []) as [table after_summary].
  destruct (tests_loop after_summary [] []) as [tests failures].
  cbn [test_summary]; unfold if_nonempty.
  destruct (is_empty table); [discriminate|].
  intros H; injection H as <-; exact N.
Qed.

End MoreParser.

Lemma no_header_no_tests_witness :
  parse_test_blocks (builtins := ascii_builtins) make_log = no_tests.
Proof. apply no_header_no_tests; reflexivity. Defined.

Lemma status_never_unknown_witness :
  (status caseB = PASSED \/ status caseB = FAILED \/ status caseB = SKIPPED)
  /\ status caseB <> UNKNOWN.
Proof.
  apply (@status_never_unknown ascii_builtins demo_log caseB).
  vm_compute; right; left; reflexivity.
Defined.


Lemma test_target_shape_witness :
  u "demo" <> [] /\
  (forall r c, u "demo" = r ++ [c] -> c <> ch ":") /\
  exists header,
    In header demo_log /\ is_header header = true /\
    u "demo" =
      rstrip_chars (u ":")
        (strip (slice (lstrip header) (Some (len TEST_RESULTS_FOR)) None)).
Proof.
  apply (@test_target_shape ascii_builtins demo_log (u "demo")); reflexivity.
Defined.

Lemma summary_keys_distinct_witness :
  NoDup (map fst [(u "total", VInt 3); (u "passed", VInt 2);
                  (u "failed", VInt 1)]).
Proof.
  apply (@summary_keys_distinct ascii_builtins demo_log); reflexivity.
Defined.

(** ** The relations of the specification and the functions of the script *)

Lemma startswith_iff (s prefix : str) :
  startswith s prefix = true <-> has_prefix prefix s.
Proof.
  split.
  - intros H; eexists; apply startswith_app; exact H.
  - intros [rest ->]; apply startswith_prefix.
Qed.

Lemma contains_iff (s sub : str) : contains s sub = true <-> occurs_in sub s.
Proof.
  unfold contains, occurs_in; split.
  - destruct (split_once sub s) as [[a b]|] eqn:E; [|discriminate].
    intros _; exists a, b; apply split_once_app; exact E.
  - intros (a & b & ->).
    destruct (split_once_found sub a b) as [x ->]; reflexivity.
Qed.

Lemma noise_line_iff (msg : str) : noise_line msg = true <-> is_noise msg.
Proof.
  unfold noise_line, startswith_any, is_noise.
  rewrite existsb_exists; split; intros (p & I & H); exists p;
    (split; [exact I | apply startswith_iff; exact H]).
Qed.

Lemma join_separated (sep : str) (parts : list str) :
  join sep parts = separated sep parts.
Proof.
  destruct parts as [|p ps]; [reflexivity|].
  revert p; induction ps as [|q ps IH]; intros p.
  - simpl; rewrite app_nil_r; reflexivity.
  - change (join sep (p :: q :: ps)) with (p ++ sep ++ join sep (q :: ps)).
    rewrite IH; simpl; rewrite <- app_assoc; reflexivity.
Qed.

Lemma strip_trimmed (s : str) : trimmed s (strip s).
Proof.
  unfold trimmed, strip, lstrip, rstrip.
  destruct (rstrip_by_split is_space s) as [after [E F]].
  destruct (lstrip_by_split is_space (rstrip_by is_space s))
    as [before [E' F']].
  exists before, after; split; [|split; [exact F'|split; [exact F|split]]].
  - rewrite app_assoc, <- E'; exact E.
  - unfold no_leading_space.
    destruct (lstrip_by is_space (rstrip_by is_space s)) eqn:L; [exact I|].
    eapply lstrip_by_head; exact L.
  - intros r c H; rewrite H in E'.
    apply (@rstrip_by_last is_space s (before ++ r) c).
    rewrite E', app_assoc; reflexivity.
Qed.

(** The default clamp is the clamp of the specification at 4000
    characters. *)
Lemma clamp_clamped (text : str) : clamped 4000 text (clamp text).
Proof.
  unfold clamp, clamp_text, MAX_OUTPUT_CHARS, len.
  destruct (Z.leb_spec (Z.of_nat (length text)) 4000) as [L|L].
  - apply clamped_short; lia.
  - rewrite slice_prefix by lia.
    change (Z.to_nat 4000) with 4000.
    destruct (rstrip_by_split is_space (firstn 4000 text)) as [ws [E F]].
    replace (Z.of_nat (length text) - 4000)%Z
      with (Z.of_nat (length text - 4000)) by lia.
    apply (@clamped_long 4000 text (rstrip (firstn 4000 text)) ws);
      [lia | exact E | exact F |].
    intros r c H; eapply rstrip_by_last; exact H.
Qed.

Lemma filter_kept_lines (window : list str) :
  kept_lines (fun msg => msg = []) window
    (filter (fun msg => negb (is_empty msg) && negb (noise_line msg)) window).
Proof.
  induction window as [|msg window IH]; simpl; [constructor|].
  destruct (is_empty msg) eqn:E; simpl.
  - apply kept_drop; [left; apply is_empty_true; exact E | exact IH].
  - destruct (noise_line msg) eqn:N; simpl.
    + apply kept_drop; [right; apply noise_line_iff; exact N | exact IH].
    + apply kept_keep; [| |exact IH].
      * apply is_empty_false; exact E.
      * intros H; apply noise_line_iff in H; congruence.
Qed.

Lemma kept_lines_ext (blank1 blank2 : str -> Prop) (window kept : list str) :
  (forall msg, In msg window -> (blank1 msg <-> blank2 msg)) ->
  kept_lines blank1 window kept -> kept_lines blank2 window kept.
Proof.
  intros H K; induction K as [|msg window kept B K IH|msg window kept B N K IH].
  - constructor.
  - apply kept_drop.
    + destruct B as [B|B]; [left; apply (H msg); simpl; auto | right; exact B].
    + apply IH; intros m I; apply H; right; exact I.
  - apply kept_keep; [| exact N |].
    + intros X; apply B, (H msg); simpl; auto.
    + apply IH; intros m I; apply H; right; exact I.
Qed.

Lemma first_error_split (messages : list str) (n : nat) :
  first_error messages = Some n ->
  exists err after,
    messages = firstn n messages ++ err :: after /\
    startswith err ERROR_MARKER = true /\
    forall m, In m (firstn n messages) -> startswith m ERROR_MARKER = false.
Proof.
  revert n; induction messages as [|msg rest IH]; intros n;
    cbn [first_error]; [discriminate|].
  destruct (startswith msg ERROR_MARKER) eqn:S.
  - intros H; injection H as <-; exists msg, rest; simpl.
    split; [reflexivity|]; split; [exact S | intros m []].
  - destruct (first_error rest) as [k|]; [|discriminate].
    cbn [option_map]; intros H; injection H as <-.
    destruct (IH k eq_refl) as (err & after & E & P & B).
    exists err, after; cbn [firstn]; split; [|split; [exact P|]].
    + simpl; f_equal; exact E.
    + intros m [<-|I]; [exact S | apply B; exact I].
Qed.

(** Scanning a list from its end. *)
Lemma find_rev_split {A} (p : A -> bool) (l : list A) :
  match find p (rev l) with
  | Some x =>
      exists earlier later,
        l = earlier ++ x :: later /\ p x = true /\
        forall y, In y later -> p y = false
  | None => forall y, In y l -> p y = false
  end.
Proof.
  induction l as [|a l IH] using rev_ind; [intros y []|].
  rewrite rev_app_distr; simpl.
  destruct (p a) eqn:P.
  - exists l, []; split; [reflexivity|]; split; [exact P | intros y []].
  - destruct (find p (rev l)) as [x|].
    + destruct IH as (earlier & later & -> & X & L).
      exists earlier, (later ++ [a]); rewrite <- app_assoc; simpl.
      split; [reflexivity|]; split; [exact X|].
      intros y I; apply in_app_or in I as [I|[<-|[]]]; auto.
    + intros y I; apply in_app_or in I as [I|[<-|[]]]; auto.
Qed.

Section ReasonLemmas.
Context {builtins : PyBuiltins}.

Lemma has_failure_keyword_iff (line : str) :
  has_failure_keyword line = true <-> names_failure line.
Proof.
  unfold has_failure_keyword, names_failure.
  rewrite existsb_exists; split; intros (k & I & H); exists k;
    (split; [exact I | apply contains_iff; exact H]).
Qed.

Lemma not_names_failure (line : str) :
  has_failure_keyword line = false -> ~ names_failure line.
Proof.
  intros H N; apply has_failure_keyword_iff in N; congruence.
Qed.

Lemma reason_chosen (lines : list str) :
  lines <> [] ->
  chosen_reason lines
    match find has_failure_keyword (rev lines) with
    | Some line => line
    | None => last lines []
    end.
Proof.
  intros NE; pose proof (find_rev_split has_failure_keyword lines) as F.
  destruct (find has_failure_keyword (rev lines)) as [line|].
  - destruct F as (earlier & later & E & P & L); left.
    exists earlier, later; split; [exact E|].
    split; [apply has_failure_keyword_iff; exact P|].
    intros l I; apply not_names_failure, L; exact I.
  - right; split; [intros l I; apply not_names_failure, F; exact I|].
    exists (removelast lines); apply app_removelast_last; exact NE.
Qed.

End ReasonLemmas.

(** ** More on [collect_failure_context] and [parse_log] *)

Section MoreEntry.
Context {builtins : PyBuiltins}.

Lemma collect_context_eq (messages : list str) :
  error_positions messages 0 <> [] ->
  collect_failure_context messages (error_positions messages 0) =
    spec_failure_context is_empty messages.
Proof.
  intros NE; unfold spec_failure_context.
  pose proof (error_positions_first messages 0) as F.
  destruct (first_error messages) as [n|]; [|contradiction].
  destruct F as [L [others F]]; rewrite F; simpl Z.add.
  assert (W : slice messages (Some (Z.max 0 (Z.of_nat n - 30)))
                (Some (Z.of_nat n)) = last_n 30 (firstn n messages)).
  { replace (Z.max 0 (Z.of_nat n - 30)) with (Z.of_nat (n - 30)) by lia.
    rewrite slice_range by lia.
    unfold last_n; rewrite length_firstn, Nat.min_l by lia.
    rewrite skipn_firstn_comm; reflexivity. }
  unfold collect_failure_context; rewrite W.
  change (-20)%Z with (- Z.of_nat 20)%Z.
  rewrite slice_suffix by lia; reflexivity.
Qed.

Lemma last_In {A} (l : list A) (d : A) : l <> [] -> In (last l d) l.
Proof.
  induction l as [|x l IH]; [congruence|]; intros _.
  destruct l as [|y l]; [left; reflexivity|].
  right; apply IH; discriminate.
Qed.

Lemma last_n_nonempty {A} (n : nat) (l : list A) :
  0 < n -> l <> [] -> last_n n l <> [].
Proof.
  intros N H E; apply (f_equal (@length A)) in E.
  unfold last_n in E; rewrite length_skipn in E.
  destruct l; [congruence | cbn [length] in E; lia].
Qed.

(** The reason of a context is one of the lines that the filter keeps. *)
Lemma context_reason_kept (messages : list str) (ctx : FailureContext) :
  collect_failure_context messages (error_positions messages 0) = Some ctx ->
  exists n,
    first_error messages = Some n /\
    In (context_reason ctx)
      (filter (fun msg => negb (is_empty msg) && negb (noise_line msg))
         (last_n 30 (firstn n messages))).
Proof.
  intros H.
  assert (NE : error_positions messages 0 <> []).
  { intros E; rewrite E in H; discriminate H. }
  rewrite collect_context_eq in H by exact NE.
  unfold spec_failure_context in H.
  destruct (first_error messages) as [n|]; [|discriminate].
  exists n; split; [reflexivity|].
  cbv zeta in H.
  destruct (is_empty _) eqn:E in H; [discriminate|].
  injection H as <-; cbn [context_reason].
  apply is_empty_false in E.
  apply (@skipn_In _ (length
           (filter (fun msg => negb (is_empty msg) && negb (noise_line msg))
              (last_n 30 (firstn n messages))) - 20)).
  fold (last_n 20
          (filter (fun msg => negb (is_empty msg) && negb (noise_line msg))
             (last_n 30 (firstn n messages)))).
  destruct (find has_failure_keyword (rev (last_n 20 _))) as [line|] eqn:F.
  - apply find_some in F as [I _]; apply in_rev; exact I.
  - apply last_In, last_n_nonempty; [lia | exact E].
Qed.

(** X9.  The reason of a failure context is a message of the log: one of
    the up to 30 messages before the first message that starts with
    [##[error]] (the error message itself is never the reason); it is not
    empty and is no noise line. *)
Theorem context_reason_origin (messages : list str) (ctx : FailureContext) :
  collect_failure_context messages (error_positions messages 0) = Some ctx ->
  exists n,
    first_error messages = Some n /\
    In (context_reason ctx) (last_n 30 (firstn n messages)) /\
    In (context_reason ctx) messages /\
    context_reason ctx <> [] /\
    noise_line (context_reason ctx) = false.
Proof.
  intros H; apply context_reason_kept in H as (n & F & I).
  exists n; split; [exact F|].
  apply filter_In in I as [I K].
  apply andb_true_iff in K as [E N].
  apply negb_true_iff in E, N.
  repeat split; auto.
  - eapply firstn_In, skipn_In; exact I.
  - apply is_empty_false; exact E.
Qed.

Lemma slice_empty_range {A} (l : list A) : slice l (Some 0%Z) (Some 0%Z) = [].
Proof.
  change 0%Z with (Z.of_nat 0); rewrite slice_range by lia; reflexivity.
Qed.

(** An error marker in the first message leaves no context. *)
Lemma no_context_at_start (messages : list str) (others : list Z) :
  collect_failure_context messages (0%Z :: others) = None.
Proof.
  unfold collect_failure_context.
  change (Z.max 0 (0 - 30)) with 0%Z; rewrite slice_empty_range.
  reflexivity.
Qed.

Lemma failed_entry (stem path : str) (messages : list str) :
  entry_status (parse_messages stem path messages) = FAILED ->
  error_positions messages 0 <> [] /\
  reason (parse_messages stem path messages) =
    fst (failure_reason messages (error_positions messages 0)
           (parse_test_blocks messages)) /\
  failure_output (parse_messages stem path messages) =
    snd (failure_reason messages (error_positions messages 0)
           (parse_test_blocks messages)).
Proof.
  rewrite entry_status_eq; intros S.
  unfold parse_messages; cbv zeta.
  pose proof (error_positions_empty messages 0) as E.
  destruct (existsb _ messages); [|discriminate S].
  destruct (error_positions messages 0) as [|idx others]; [discriminate E|].
  cbn [is_empty].
  change (str_eqb FAILED SUCCEEDED) with false; cbv iota.
  destruct (failure_reason messages (idx :: others)
              (parse_test_blocks messages)) as [r o].
  split; [discriminate | split; reflexivity].
Qed.

Lemma outputs_of_eq (failed_records : list TestRecord) :
  flat_map
    (fun failure =>
       match output failure with
       | Some o => if is_empty o then [] else [o]
       | None => []
       end) failed_records = outputs_of failed_records.
Proof.
  induction failed_records as [|r l IH]; [reflexivity|].
  unfold outputs_of in *; cbn [flat_map]; rewrite filter_app, IH.
  f_equal; destruct (output r) as [o|]; [|reflexivity].
  cbn [filter]; destruct (is_empty o); reflexivity.
Qed.

Lemma failures_nonempty (messages : list str) (fs : list TestRecord) :
  failures (parse_test_blocks messages) = Some fs -> fs <> [].
Proof.
  unfold parse_test_blocks.
  destruct (find_last_idx messages 0 None); [|discriminate].
  destruct (summary_loop _ []) as [table after_summary].
  destruct (tests_loop after_summary [] []) as [tests failed_tests].
  cbn [failures]; unfold if_nonempty.
  destruct failed_tests; [discriminate|].
  intros H; injection H as <-; discriminate.
Qed.

(** X10.  For an entry whose status is "failed": with structured failures
    the reason is "Tests failed: " and the names of the failed tests
    separated by ", ", and the failure output is the text of their
    non-empty outputs separated by blank lines, clamped at 4000 characters
    (absent when there is none); without structured failures the reason
    and the output are those of the failure context, and "Build failed for
    an unknown reason." with no output when there is no context. *)
Theorem failure_reason_spec (stem path : str) (messages : list str) :
  let entry := parse_messages stem path messages in
  let info := parse_test_blocks messages in
  entry_status entry = FAILED ->
  (forall fs,
     failures info = Some fs ->
     reason entry = u "Tests failed: " ++ separated (u ", ") (map name fs) /\
     match failure_output entry with
     | Some out =>
         outputs_of fs <> [] /\
         clamped 4000 (separated [10%N; 10%N] (outputs_of fs)) out
     | None => outputs_of fs = []
     end) /\
  (failures info = None ->
   match collect_failure_context messages (error_positions messages 0) with
   | Some ctx =>
       reason entry = context_reason ctx /\
       failure_output entry = Some (context_output ctx)
   | None =>
       reason entry = u "Build failed for an unknown reason." /\
       failure_output entry = None
   end).
Proof.
  intros entry info S; subst entry info.
  destruct (failed_entry _ _ _ S) as (_ & -> & ->).
  unfold failure_reason; split.
  - intros fs F; rewrite F.
    pose proof (failures_nonempty _ F) as N.
    apply is_empty_false in N; rewrite N; cbn [negb fst snd].
    rewrite outputs_of_eq, join_separated; split; [reflexivity|].
    destruct (is_empty (outputs_of fs)) eqn:E.
    + apply is_empty_true; exact E.
    + split; [apply is_empty_false; exact E|].
      rewrite <- (join_separated [10%N; 10%N]); apply clamp_clamped.
  - intros F; rewrite F; cbn [is_empty negb].
    destruct (collect_failure_context messages (error_positions messages 0));
      split; reflexivity.
Qed.

Lemma success_reason_nonempty (info : TestInfo) : success_reason info <> [].
Proof.
  unfold success_reason.
  destruct (negb _ && _).
  - destruct (dict_get (u "total") _), (dict_get PASSED _); discriminate.
  - destruct (match tests info with Some _ => true | None => false end);
      discriminate.
Qed.

(** X11.  Every entry has the status "succeeded" or "failed"; it carries a
    failure output only when it has failed; its reason is never empty;
    its test fields are the result of the test block parser. *)
Theorem entry_invariants (stem path : str) (messages : list str) :
  let entry := parse_messages stem path messages in
  (entry_status entry = SUCCEEDED \/ entry_status entry = FAILED) /\
  (failure_output entry <> None -> entry_status entry = FAILED) /\
  reason entry <> [] /\
  entry_tests entry = parse_test_blocks messages /\
  entry_name entry = stem /\ entry_path entry = path.
Proof.
  intros entry; subst entry.
  assert (T : entry_tests (parse_messages stem path messages) =
              parse_test_blocks messages
              /\ entry_name (parse_messages stem path messages) = stem
              /\ entry_path (parse_messages stem path messages) = path).
  { unfold parse_messages; cbv zeta.
    match goal with
    | |- context [let '(_, _) := ?X in _] => destruct X
    end.
    repeat split. }
  destruct (existsb (fun msg => startswith msg ERROR_MARKER) messages) eqn:E.
  - assert (S : entry_status (parse_messages stem path messages) = FAILED)
      by (rewrite entry_status_eq, E; reflexivity).
    split; [auto|]; split; [auto|]; split; [|exact T].
    destruct (failed_entry _ _ _ S) as (_ & -> & _).
    unfold failure_reason.
    destruct (negb _); [discriminate|].
    destruct (collect_failure_context messages (error_positions messages 0))
      as [ctx|] eqn:C; [|discriminate].
    apply context_reason_kept in C as (n & _ & I).
    apply filter_In in I as [_ K]; apply andb_true_iff in K as [K _].
    apply negb_true_iff, is_empty_false in K; exact K.
  - assert (S : entry_status (parse_messages stem path messages) = SUCCEEDED)
      by (rewrite entry_status_eq, E; reflexivity).
    split; [auto|]; rewrite (succeeded_entry _ _ _ S).
    cbn [failure_output reason entry_tests entry_name entry_path].
    split; [congruence|]; split; [apply success_reason_nonempty|].
    repeat split.
Qed.

End MoreEntry.

Lemma context_reason_origin_witness :
  exists n,
    first_error make_log = Some n /\
    In (u "link Error: undefined symbol") (last_n 30 (firstn n make_log)) /\
    In (u "link Error: undefined symbol") make_log /\
    u "link Error: undefined symbol" <> [] /\
    noise_line (u "link Error: undefined symbol") = false.
Proof.
  apply (@context_reason_origin ascii_builtins make_log
           {| context_reason := u "link Error: undefined symbol";
              context_output :=
                u "compile ok" ++ [NL] ++ u "link Error: undefined symbol"
                  ++ [NL] ++ u "make: *** stopped" |}).
  reflexivity.
Defined.

Lemma failure_reason_spec_witness :
  reason (parse_messages (builtins := ascii_builtins) (u "demo")
            (u "logs/demo.txt") demo_log) = u "Tests failed: caseB" /\
  reason (parse_messages (builtins := ascii_builtins) (u "make")
            (u "logs/make.txt") make_log) = u "link Error: undefined symbol".
Proof.
  split.
  - destruct (@failure_reason_spec ascii_builtins (u "demo")
                (u "logs/demo.txt") demo_log eq_refl) as [P _].
    exact (proj1 (P [caseB] eq_refl)).
  - destruct (@failure_reason_spec ascii_builtins (u "make")
                (u "logs/make.txt") make_log eq_refl) as [_ P].
    exact (proj1 (P eq_refl)).
Defined.

Lemma entry_invariants_witness :
  entry_status
    (parse_messages (builtins := ascii_builtins) (u "make")
       (u "logs/make.txt") make_log) = FAILED.
Proof.
  apply (proj1 (proj2 (@entry_invariants ascii_builtins (u "make")
                         (u "logs/make.txt") make_log))).
  vm_compute; discriminate.
Defined.

(** ** Environment values *)

Section Environment.
Context {builtins : PyBuiltins}.

Lemma find_none_iff {A} (p : A -> bool) (l : list A) :
  find p l = None <-> forall x, In x l -> p x = false.
Proof.
  split; [apply find_none|].
  induction l as [|x l IH]; intros H; simpl; [reflexivity|].
  rewrite (H x (or_introl eq_refl)); apply IH.
  intros y I; apply H; right; exact I.
Qed.

Lemma find_first {A} (p : A -> bool) (before : list A) (x : A)
    (after : list A) :
  (forall y, In y before -> p y = false) -> p x = true ->
  find p (before ++ x :: after) = Some x.
Proof.
  intros H P; induction before as [|y before IH]; simpl.
  - rewrite P; reflexivity.
  - rewrite (H y (or_introl eq_refl)); apply IH.
    intros z I; apply H; right; exact I.
Qed.

(** The first colon of [prefix + ":" + v] is the one after a prefix that
    has no colon. *)
Lemma split_once_colon (prefix v : str) :
  ~ In (ch ":") prefix ->
  split_once (u ":") (prefix ++ u ":" ++ v) = Some (prefix, v).
Proof.
  induction prefix as [|c prefix IH]; intros N.
  - reflexivity.
  - cbn [app split_once].
    assert (C : char_eqb c (ch ":") = false).
    { destruct (char_eqb c (ch ":")) eqn:E; [|reflexivity].
      apply char_eqb_eq in E; subst c; exfalso; apply N; left; reflexivity. }
    change (startswith (c :: prefix ++ u ":" ++ v) (u ":"))
      with (char_eqb c (ch ":") && true).
    rewrite C; cbn [andb]; rewrite IH; [reflexivity|].
    intros I; apply N; right; exact I.
Qed.

(** X12.  [extract_env_value] finds nothing exactly when no message starts
    with the prefix and a colon; otherwise, for a prefix without a colon,
    it returns the text after [PREFIX:] of the first such message, without
    the whitespace around it. *)
Theorem extract_env_value_spec (messages : list str) (prefix : str) :
  (extract_env_value messages prefix = None <->
   forall msg, In msg messages -> startswith msg (prefix ++ u ":") = false) /\
  (forall before v after,
     messages = before ++ (prefix ++ u ":" ++ v) :: after ->
     (forall msg, In msg before -> startswith msg (prefix ++ u ":") = false) ->
     ~ In (ch ":") prefix ->
     extract_env_value messages prefix = Some (strip v)).
Proof.
  unfold extract_env_value; split.
  - rewrite <- find_none_iff.
    destruct (find _ messages); split; congruence.
  - intros before v after -> B N.
    rewrite find_first; [| exact B |].
    + unfold after_colon; rewrite split_once_colon by exact N; reflexivity.
    + rewrite app_assoc; apply startswith_prefix.
Qed.

Lemma version_eq (stem path : str) (messages : list str) :
  version (parse_messages stem path messages) =
    truthy
      match
        truthy
          match
            find (fun msg => startswith msg (u "Detected version:")) messages
          with
          | Some msg => Some (after_colon msg)
          | None => None
          end
      with
      | Some v => Some v
      | None => extract_env_value messages (u "VERSION")
      end.
Proof.
  unfold parse_messages; cbv zeta.
  match goal with
  | |- context [let '(_, _) := ?X in _] => destruct X
  end.
  reflexivity.
Qed.

(** X13.  The version of an entry comes from the first message that starts
    with "Detected version:", when the text after its colon is not empty;
    when it is empty, or when there is no such message, the version is the
    non-empty value of the first [VERSION:] message, if any. *)
Theorem version_priority (stem path : str) (messages : list str) :
  let entry := parse_messages stem path messages in
  (forall before msg after,
     messages = before ++ msg :: after ->
     (forall m, In m before -> startswith m (u "Detected version:") = false) ->
     startswith msg (u "Detected version:") = true ->
     version entry =
       if is_empty (after_colon msg)
       then truthy (extract_env_value messages (u "VERSION"))
       else Some (after_colon msg)) /\
  ((forall m, In m messages -> startswith m (u "Detected version:") = false) ->
   version entry = truthy (extract_env_value messages (u "VERSION"))).
Proof.
  intros entry; subst entry; rewrite version_eq; split.
  - intros before msg after E B S.
    rewrite E at 1; rewrite find_first by assumption.
    cbn [truthy]; unfold if_nonempty.
    destruct (is_empty (after_colon msg)) eqn:V; [reflexivity|].
    cbn [truthy]; unfold if_nonempty; rewrite V; reflexivity.
  - intros H; apply find_none_iff in H; rewrite H; reflexivity.
Qed.

(** X14.  A log without a test report has no test fields.  When no message
    starts with [##[error]] it has succeeded with the reason "Completed
    without reported failures."; when its first message starts with
    [##[error]] it has failed with the reason "Build failed for an unknown
    reason."; in both cases there is no failure output. *)
Theorem no_report_entry (stem path : str) (messages : list str) :
  forallb (fun m => negb (is_header m)) messages = true ->
  let entry := parse_messages stem path messages in
  entry_tests entry = no_tests /\
  ((forall msg, In msg messages -> startswith msg ERROR_MARKER = false) ->
   entry_status entry = SUCCEEDED /\
   reason entry = u "Completed without reported failures." /\
   failure_output entry = None) /\
  (forall first rest,
     messages = first :: rest -> startswith first ERROR_MARKER = true ->
     entry_status entry = FAILED /\
     reason entry = u "Build failed for an unknown reason." /\
     failure_output entry = None).
Proof.
  intros H entry; subst entry.
  assert (T : parse_test_blocks messages = no_tests).
  { unfold parse_test_blocks; rewrite find_last_idx_none by exact H.
    reflexivity. }
  split; [|split].
  - unfold parse_messages; cbv zeta.
    match goal with
    | |- context [let '(_, _) := ?X in _] => destruct X
    end.
    exact T.
  - intros N.
    assert (S : entry_status (parse_messages stem path messages) = SUCCEEDED).
    { rewrite entry_status_eq.
      destruct (existsb _ messages) eqn:E; [|reflexivity].
      apply existsb_exists in E as [msg [I E]].
      rewrite (N msg I) in E; discriminate E. }
    split; [exact S|]; rewrite (succeeded_entry _ _ _ S), T.
    split; reflexivity.
  - intros first rest -> E.
    assert (S : entry_status (parse_messages stem path (first :: rest))
                = FAILED).
    { rewrite entry_status_eq; cbn [existsb]; rewrite E; reflexivity. }
    split; [exact S|].
    destruct (failed_entry _ _ _ S) as (_ & -> & ->).
    rewrite T; cbn [error_positions]; rewrite E.
    unfold failure_reason; cbn [failures no_tests is_empty negb].
    rewrite no_context_at_start; split; reflexivity.
Qed.

End Environment.

Lemma extract_env_value_spec_witness :
  extract_env_value green_log (u "RECIPE") = Some (strip (u " afni")).
Proof.
  apply (proj2 (@extract_env_value_spec green_log (u "RECIPE"))
           [] (u " afni") (skipn 1 green_log)).
  - reflexivity.
  - intros msg [].
  - intros [H|[H|[H|[H|[H|[H|[]]]]]]]; discriminate H.
Defined.

Lemma version_priority_witness :
  version (parse_messages (builtins := ascii_builtins) (u "afni")
             (u "logs/afni.txt") green_log) = Some (u "24.1").
Proof.
  apply (proj1 (@version_priority ascii_builtins (u "afni")
                  (u "logs/afni.txt") green_log)
           [u "RECIPE: afni"] (u "Detected version: 24.1")
           (skipn 2 green_log)).
  - reflexivity.
  - intros m [<-|[]]; reflexivity.
  - reflexivity.
Defined.

Lemma no_report_entry_witness :
  entry_status
    (parse_messages (builtins := ascii_builtins) (u "job") (u "logs/job.txt")
       [u "##[error]boom"; u "cleanup"]) = FAILED /\
  reason
    (parse_messages (builtins := ascii_builtins) (u "job") (u "logs/job.txt")
       [u "##[error]boom"; u "cleanup"])
  = u "Build failed for an unknown reason." /\
  failure_output
    (parse_messages (builtins := ascii_builtins) (u "job") (u "logs/job.txt")
       [u "##[error]boom"; u "cleanup"]) = None.
Proof.
  apply (proj2 (proj2 (@no_report_entry ascii_builtins (u "job")
                         (u "logs/job.txt")
                         [u "##[error]boom"; u "cleanup"] eq_refl))
           (u "##[error]boom") [u "cleanup"]); reflexivity.
Defined.

(** ** A key that occurs again *)

Section SummaryOverride.
Context {builtins : PyBuiltins}.

Lemma fold_store_keeps (key : str) (v : value) (lines : list str) :
  (forall l v', In l lines -> pair_of l <> Some (key, v')) ->
  forall d, dict_get key d = Some v ->
            dict_get key (fold_left store lines d) = Some v.
Proof.
  induction lines as [|l lines IH]; intros H d G; [exact G|].
  cbn [fold_left]; apply IH.
  - intros l' v' I; apply H; right; exact I.
  - unfold store; destruct (pair_of l) as [[k w]|] eqn:P; [|exact G].
    rewrite dict_get_set_other; [exact G|].
    intros ->; exact (H l w (or_introl eq_refl) P).
Qed.

Lemma store_pair (d : dict) (line key : str) (v : value) :
  pair_of line = Some (key, v) -> store d line = dict_set key v d.
Proof. unfold store; intros ->; reflexivity. Qed.

(** X15.  In the summary table the value of a key is the one of the last
    [key: value] line with that key: a later line with the same
    (lower-cased) key replaces the value of an earlier one. *)
Theorem summary_last_pair_wins (earlier : list str) (line : str)
    (later : list str) (summary : dict) (key : str) (v : value) :
  forallb (fun m => blank_line m || pair_line m) (earlier ++ line :: later)
    = true ->
  pair_of line = Some (key, v) ->
  (forall l v', In l later -> pair_of l <> Some (key, v')) ->
  dict_get key (fst (summary_loop (earlier ++ line :: later) summary))
    = Some v.
Proof.
  intros H P L.
  rewrite <- (app_nil_r (earlier ++ line :: later)).
  rewrite summary_loop_pairs by exact H; cbn [summary_loop fst].
  assert (B : blank_line line = false).
  { unfold blank_line; unfold pair_of in P.
    destruct (lstrip line); [discriminate P | reflexivity]. }
  rewrite filter_app; cbn [filter]; rewrite B; cbn [negb].
  rewrite fold_left_app; cbn [fold_left].
  apply fold_store_keeps.
  - intros l v' I; apply L; apply filter_In in I as [I _]; exact I.
  - rewrite (store_pair _ _ P); apply dict_get_set.
Qed.

End SummaryOverride.

Lemma summary_last_pair_wins_witness :
  dict_get (u "total")
    (fst (summary_loop (builtins := ascii_builtins)
            ([u "Total: 3"; u "passed: 2"] ++ u "TOTAL: 4" :: [u "failed: 1"])
            []))
  = Some (VInt 4).
Proof.
  apply (@summary_last_pair_wins ascii_builtins [u "Total: 3"; u "passed: 2"]
           (u "TOTAL: 4") [u "failed: 1"] [] (u "total") (VInt 4)).
  - reflexivity.
  - reflexivity.
  - intros l v' [<-|[]]; discriminate.
Defined.

(** ** [main] *)

Lemma str_ltb_irrefl (a : str) : str_ltb a a = false.
Proof.
  induction a as [|x a IH]; [reflexivity|]; simpl.
  rewrite N.ltb_irrefl, N.eqb_refl, IH; reflexivity.
Qed.

Lemma str_ltb_asym (a b : str) : str_ltb a b = true -> str_ltb b a = false.
Proof.
  revert b; induction a as [|x a IH]; intros [|y b]; simpl; try congruence.
  destruct (N.ltb_spec x y), (N.ltb_spec y x), (N.eqb_spec x y),
    (N.eqb_spec y x); simpl; try lia; try congruence; auto.
Qed.

(** Whatever is below [a] is below [b] or else [b] is below [a]. *)
Lemma str_ltb_between (c a : str) :
  str_ltb c a = true ->
  forall b, str_ltb b a = true \/ str_ltb c b = true.
Proof.
  revert a; induction c as [|x c IH]; intros [|y a] H [|z b]; simpl in *;
    try congruence; auto.
  destruct (N.ltb_spec x y), (N.ltb_spec z y), (N.ltb_spec x z),
    (N.eqb_spec x y), (N.eqb_spec z y), (N.eqb_spec x z);
    simpl in *; try lia; try congruence; auto.
Qed.

Lemma name_le_trans (a b c : LogEntry) :
  name_le a b -> name_le b c -> name_le a c.
Proof.
  unfold name_le, str_leb; intros A B.
  apply negb_true_iff in A, B; apply negb_true_iff.
  destruct (str_ltb (entry_name c) (entry_name a)) eqn:E; [|reflexivity].
  destruct (str_ltb_between _ _ E (entry_name b)) as [H|H]; congruence.
Qed.

Lemma insert_entry_perm (item : LogEntry) (sorted : list LogEntry) :
  Permutation (insert_entry item sorted) (item :: sorted).
Proof.
  induction sorted as [|x rest IH]; simpl; [reflexivity|].
  destruct (str_ltb (entry_name x) (entry_name item)); [|reflexivity].
  rewrite IH; apply perm_swap.
Qed.

Lemma sort_entries_perm (l : list LogEntry) : Permutation (sort_entries l) l.
Proof.
  induction l as [|x l IH]; simpl; [reflexivity|].
  rewrite insert_entry_perm; constructor; exact IH.
Qed.

Lemma insert_entry_sorted (item : LogEntry) (sorted : list LogEntry) :
  Sorted name_le sorted -> Sorted name_le (insert_entry item sorted).
Proof.
  induction sorted as [|x rest IH]; intros S; simpl.
  - repeat constructor.
  - inversion S as [|? ? S' Hd]; subst.
    destruct (str_ltb (entry_name x) (entry_name item)) eqn:E.
    + constructor; [auto|].
      destruct rest as [|y rest]; simpl.
      * constructor; unfold name_le, str_leb.
        rewrite (str_ltb_asym _ _ E); reflexivity.
      * destruct (str_ltb (entry_name y) (entry_name item)).
        -- inversion Hd; subst; constructor; assumption.
        -- constructor; unfold name_le, str_leb.
           rewrite (str_ltb_asym _ _ E); reflexivity.
    + constructor; [exact S|].
      constructor; unfold name_le, str_leb; rewrite E; reflexivity.
Qed.

Lemma sort_entries_sorted (l : list LogEntry) :
  StronglySorted name_le (sort_entries l).
Proof.
  apply Sorted_StronglySorted; [exact name_le_trans|].
  induction l as [|x l IH]; simpl; [constructor|].
  apply insert_entry_sorted; exact IH.
Qed.

Lemma named_insert (n : str) (item : LogEntry) (sorted : list LogEntry) :
  named n (insert_entry item sorted) =
    if str_eqb (entry_name item) n then item :: named n sorted
    else named n sorted.
Proof.
  unfold named; induction sorted as [|x rest IH]; simpl; [reflexivity|].
  destruct (str_ltb (entry_name x) (entry_name item)) eqn:E; simpl.
  - rewrite IH.
    destruct (str_eqb (entry_name item) n) eqn:I; [|reflexivity].
    destruct (str_eqb (entry_name x) n) eqn:X; [|reflexivity].
    apply str_eqb_eq in I, X; rewrite I, X, str_ltb_irrefl in E.
    discriminate E.
  - destruct (str_eqb (entry_name item) n); reflexivity.
Qed.

Lemma sort_entries_stable (n : str) (l : list LogEntry) :
  named n (sort_entries l) = named n l.
Proof.
  induction l as [|x l IH]; [reflexivity|].
  cbn [sort_entries fold_right]; fold (sort_entries l).
  rewrite named_insert, IH; reflexivity.
Qed.

Lemma count_status_filter (wanted : str) (l : list LogEntry) :
  count_status wanted l =
    len (filter (fun item => str_eqb (entry_status item) wanted) l).
Proof.
  unfold count_status.
  enough (H : forall total,
             fold_left
               (fun total item =>
                  if str_eqb (entry_status item) wanted
                  then (total + 1)%Z else total) l total =
             (total + len (filter
                             (fun item => str_eqb (entry_status item) wanted)
                             l))%Z) by (rewrite H; reflexivity).
  induction l as [|x l IH]; intros total; simpl.
  - unfold len; simpl; lia.
  - rewrite IH; destruct (str_eqb (entry_status x) wanted); unfold len; simpl;
      lia.
Qed.

Lemma count_two_statuses (l : list LogEntry) :
  Forall (fun item => entry_status item = SUCCEEDED
                      \/ entry_status item = FAILED) l ->
  (count_status SUCCEEDED l + count_status FAILED l = len l)%Z.
Proof.
  rewrite !count_status_filter; unfold len.
  induction 1 as [|x l [S|S] _ IH]; [reflexivity| |]; simpl; rewrite S;
    [change (str_eqb SUCCEEDED SUCCEEDED) with true;
     change (str_eqb SUCCEEDED FAILED) with false
    |change (str_eqb FAILED SUCCEEDED) with false;
     change (str_eqb FAILED FAILED) with true]; simpl length; lia.
Qed.

Section MainProperties.
Context {builtins : PyBuiltins}.

Lemma parse_log_status (stem path : str) (lines : list str) :
  entry_status (parse_log stem path lines) = SUCCEEDED \/
  entry_status (parse_log stem path lines) = FAILED.
Proof.
  unfold parse_log; rewrite entry_status_eq.
  destruct (existsb _ _); auto.
Qed.

(** X16.  In the summary of a run, [total_builds] is the number of log
    files, and every build is counted once, as succeeded or as failed. *)
Theorem summary_counts (log_files : list LogFile) :
  let summary := main_summary log_files in
  total_builds summary = len log_files /\
  (summary_succeeded summary + summary_failed summary =
     total_builds summary)%Z /\
  (0 <= summary_succeeded summary)%Z /\ (0 <= summary_failed summary)%Z.
Proof.
  intros summary; subst summary; unfold main_summary.
  cbn [total_builds summary_succeeded summary_failed].
  split; [|split].
  - unfold len; rewrite (Permutation_length (sort_entries_perm _)).
    rewrite length_map; reflexivity.
  - apply count_two_statuses.
    eapply Permutation_Forall; [symmetry; apply sort_entries_perm|].
    apply Forall_forall; intros e I; apply in_map_iff in I as [f [<- _]].
    apply parse_log_status.
  - rewrite !count_status_filter; unfold len; lia.
Qed.

(** X17.  The entries of the summary are the entries of the log files, each
    once, in ascending order of their names; entries with the same name
    keep the order of their files. *)
Theorem summary_entries_sorted (log_files : list LogFile) :
  let parsed :=
    map (fun f => parse_log (file_stem f) (file_path f) (file_lines f))
      log_files in
  StronglySorted name_le (entries (main_summary log_files)) /\
  Permutation (entries (main_summary log_files)) parsed /\
  forall n, named n (entries (main_summary log_files)) = named n parsed.
Proof.
  intros parsed; subst parsed; unfold main_summary; cbn [entries].
  split; [apply sort_entries_sorted|].
  split; [apply sort_entries_perm | intros n; apply sort_entries_stable].
Qed.

End MainProperties.

Example run_files_summary :
  let summary := main_summary (builtins := ascii_builtins) run_files in
  total_builds summary = 3%Z /\
  summary_succeeded summary = 1%Z /\
  summary_failed summary = 2%Z /\
  map entry_name (entries summary) = [u "afni"; u "demo"; u "make"] /\
  map reason (entries summary) =
    [ u "All tests passed (3 of 3)."; u "Tests failed: caseB";
      u "link Error: undefined symbol" ].
Proof. repeat split. Qed.

(** ** The failure context, step by step *)

Section ContextSteps.
Context {builtins : PyBuiltins}.

(** C3.  With the error positions of the message list, the collector
    looks at the first one only: the messages split into those before the
    first message that starts with [##[error]], that message, and the
    rest.  Of the up to 30 messages before it, it drops the blank lines
    (the empty messages; on normalized messages these are the lines of
    whitespace only) and the lines that start with a noise prefix.  When
    nothing is left it returns no context.  Otherwise, of the last 20
    lines left, the reason is the last one whose lower-cased text contains
    "error", "failed", "exception", "traceback", "abort" or "denied", or
    the last line when none does; the output is these lines separated by
    newlines, without the whitespace at its two ends, clamped at 4000
    characters. *)
Theorem collect_failure_context_spec (messages : list str) :
  let error_indices := error_positions messages 0 in
  error_indices <> [] ->
  exists before err after kept,
    messages = before ++ err :: after /\
    has_prefix (u "##[error]") err /\
    (forall m, In m before -> ~ has_prefix (u "##[error]") m) /\
    kept_lines (fun msg => msg = []) (last_n 30 before) kept /\
    (Forall normalized messages ->
     kept_lines (fun msg => forallb is_space msg = true)
       (last_n 30 before) kept) /\
    (kept = [] -> collect_failure_context messages error_indices = None) /\
    (kept <> [] ->
     exists ctx text,
       collect_failure_context messages error_indices = Some ctx /\
       chosen_reason (last_n 20 kept) (context_reason ctx) /\
       trimmed (separated [10%N] (last_n 20 kept)) text /\
       clamped 4000 text (context_output ctx)) /\
    (forall idx others,
       error_indices = idx :: others ->
       collect_failure_context messages error_indices =
         collect_failure_context messages [idx]).
Proof.
  intros error_indices NE; subst error_indices.
  pose proof (collect_context_eq messages NE) as C.
  pose proof (error_positions_first messages 0) as F.
  unfold spec_failure_context in C.
  destruct (first_error messages) as [n|] eqn:FE; [|contradiction].
  cbv zeta in C.
  clear F; destruct (first_error_split _ FE) as (err & after & E & P & B).
  set (before := firstn n messages) in *.
  set (kept := filter
                 (fun msg : str => negb (is_empty msg) && negb (noise_line msg))
                 (last_n 30 before)) in *.
  exists before, err, after, kept.
  split; [exact E|].
  split; [apply startswith_iff; exact P|].
  split.
  { intros m I H; apply startswith_iff in H.
    unfold ERROR_MARKER in B; rewrite (B m I) in H; discriminate H. }
  split; [apply filter_kept_lines|].
  split.
  { intros N; apply (kept_lines_ext (blank1 := fun msg => msg = []));
      [|apply filter_kept_lines].
    intros msg I.
    assert (M : normalized msg).
    { rewrite Forall_forall in N; apply N.
      eapply firstn_In, skipn_In; exact I. }
    pose proof (normalized_blank M) as Q; unfold whitespace_only in Q.
    rewrite Q; split; [intros ->; reflexivity | apply is_empty_true]. }
  split.
  { intros K; rewrite C, K; reflexivity. }
  split.
  - intros K; apply is_empty_false in K; rewrite K in C.
    eexists; exists (strip (join [NL] (last_n 20 kept))).
    split; [exact C|]; cbn [context_reason context_output].
    split; [|split].
    + apply reason_chosen, last_n_nonempty; [lia|].
      apply is_empty_false; exact K.
    + rewrite <- (join_separated [10%N]); apply strip_trimmed.
    + apply clamp_clamped.
  - intros idx others ->; reflexivity.
Qed.

End ContextSteps.

Lemma collect_failure_context_spec_witness :
  exists before err after kept,
    make_log = before ++ err :: after /\
    has_prefix (u "##[error]") err /\
    (forall m, In m before -> ~ has_prefix (u "##[error]") m) /\
    kept_lines (fun msg => msg = []) (last_n 30 before) kept /\
    (Forall normalized make_log ->
     kept_lines (fun msg => forallb is_space msg = true)
       (last_n 30 before) kept) /\
    (kept = [] ->
     collect_failure_context (builtins := ascii_builtins) make_log
       (error_positions make_log 0) = None) /\
    (kept <> [] ->
     exists ctx text,
       collect_failure_context (builtins := ascii_builtins) make_log
         (error_positions make_log 0) = Some ctx /\
       chosen_reason (builtins := ascii_builtins) (last_n 20 kept)
         (context_reason ctx) /\
       trimmed (separated [10%N] (last_n 20 kept)) text /\
       clamped 4000 text (context_output ctx)) /\
    (forall idx others,
       error_positions make_log 0 = idx :: others ->
       collect_failure_context (builtins := ascii_builtins) make_log
         (error_positions make_log 0) =
       collect_failure_context (builtins := ascii_builtins) make_log [idx]).
Proof.
  apply (@collect_failure_context_spec ascii_builtins make_log).
  vm_compute; discriminate.
Defined.

Example make_log_context :
  collect_failure_context (builtins := ascii_builtins) make_log
    (error_positions make_log 0) =
  Some {| context_reason := u "link Error: undefined symbol";
          context_output :=
            u "compile ok" ++ [NL] ++ u "link Error: undefined symbol"
              ++ [NL] ++ u "make: *** stopped" |}.
Proof. reflexivity. Qed.
